(** * LinkValidator: a shallow embedding of [LinkValidator.py]

    The development follows the source file top to bottom:

    - [Str]: the [str] methods the script calls ([startswith], [replace],
      [find] with slicing, [split], [join], [lower], [lstrip]);
    - [Urllib]: the functions of [urllib.parse] the script imports
      ([urlparse], [urlunparse], [parse_qs], [urlencode]), transcribed from
      the CPython 3.11 library;
    - the two normalisation passes [update_links_to_https] and
      [remove_igshid_parameter];
    - [shorten_url] and [check_link_status] over an explicit store (cache,
      histogram, data frame column) and a network oracle;
    - [process_link] and the [ThreadPoolExecutor] loop.

    Python text is modelled by [string]: a sequence of bytes, read as the
    UTF-8 encoding of the text.  On ASCII text the model and CPython agree
    character for character.  Two host checks of [urlsplit], which rest on
    the [ipaddress] and [unicodedata] modules, are kept abstract (class
    [HostChecks]).  One library behaviour is outside the model: [unquote]
    replaces percent escapes that do not decode to well-formed UTF-8 by
    U+FFFD, the model keeps the decoded bytes.

    The pool of workers is modelled sequentially: the tasks are submitted,
    then run one after the other in the order in which they complete. *)

From Stdlib Require Import Ascii String ZArith List Lia Bool Permutation.
From stdpp Require Import base option list gmap strings fin_maps.

(** String concatenation computes on a literal prefix. *)
#[global] Arguments String.append !s1 s2 : simpl nomatch.

(** ** Exceptions and results *)

(** The exceptions that matter to the script.  [RequestException] is the one
    [check_link_status] handles itself; the others reach [process_link]. *)
Inductive exn : Type :=
  | ValueError          (* raised by [urlparse] on a malformed host *)
  | RecursionError      (* the interpreter's call depth is exhausted *)
  | IndexError          (* indexing the empty list of matching rows *)
  | OtherError.         (* any other exception leaving [requests.get] *)

Inductive res (A : Type) : Type :=
  | Ok (a : A)
  | Raise (e : exn).
Arguments Ok {A} a.
Arguments Raise {A} e.

Definition res_bind {A B} (r : res A) (k : A -> res B) : res B :=
  match r with
  | Ok a => k a
  | Raise e => Raise e
  end.

#[global] Instance exn_eq_dec : EqDecision exn.
Proof. solve_decision. Defined.

#[global] Instance res_eq_dec {A} `{EqDecision A} : EqDecision (res A).
Proof. solve_decision. Defined.

(** ** [str] methods *)

Module Str.

(** [c in s] *)
Fixpoint mem (c : ascii) (s : string) : bool :=
  match s with
  | EmptyString => false
  | String d s' => if Ascii.eqb c d then true else mem c s'
  end.

(** [s.startswith(p)] *)
Fixpoint startswith (p s : string) : bool :=
  match p, s with
  | EmptyString, _ => true
  | String a p', String b s' => if Ascii.eqb a b then startswith p' s' else false
  | String _ _, EmptyString => false
  end.

(** [s[n:]] *)
Fixpoint drop (n : nat) (s : string) : string :=
  match n, s with
  | O, _ => s
  | S n', String _ s' => drop n' s'
  | S _, EmptyString => EmptyString
  end.

(** [i = s.find(c)] followed by the slices [s[:i]] and [s[i+1:]]:
    [None] when [c] does not occur ([find] returns [-1]). *)
Fixpoint partition (c : ascii) (s : string) : option (string * string) :=
  match s with
  | EmptyString => None
  | String d s' =>
      if Ascii.eqb c d then Some (EmptyString, s')
      else match partition c s' with
           | Some (l, r) => Some (String d l, r)
           | None => None
           end
  end.

(** The longest prefix whose characters all fail [stop], and the rest:
    [s[:i], s[i:]] for the first index [i] with [stop s[i]]. *)
Fixpoint break (stop : ascii -> bool) (s : string) : string * string :=
  match s with
  | EmptyString => (EmptyString, EmptyString)
  | String d s' =>
      if stop d then (EmptyString, s)
      else let (l, r) := break stop s' in (String d l, r)
  end.

(** [j = s.rfind(c)] followed by the slices [s[:j]] and [s[j:]]. *)
Fixpoint rcut (c : ascii) (s : string) : option (string * string) :=
  match s with
  | EmptyString => None
  | String d s' =>
      match rcut c s' with
      | Some (l, r) => Some (String d l, r)
      | None => if Ascii.eqb c d then Some (EmptyString, s) else None
      end
  end.

(** Keep the characters that satisfy [keep]: the effect of
    [s.replace(c, "")] for every [c] that fails [keep]. *)
Fixpoint filter (keep : ascii -> bool) (s : string) : string :=
  match s with
  | EmptyString => EmptyString
  | String d s' => if keep d then String d (filter keep s') else filter keep s'
  end.

Fixpoint forallb (p : ascii -> bool) (s : string) : bool :=
  match s with
  | EmptyString => true
  | String d s' => p d && forallb p s'
  end.

(** [s.lstrip(chars)] with [strip] the membership test of [chars]. *)
Fixpoint lstrip (strip : ascii -> bool) (s : string) : string :=
  match s with
  | EmptyString => EmptyString
  | String d s' => if strip d then lstrip strip s' else s
  end.

Fixpoint map (f : ascii -> ascii) (s : string) : string :=
  match s with
  | EmptyString => EmptyString
  | String d s' => String (f d) (map f s')
  end.

(** [s.replace(old, new)]: every non-overlapping occurrence of [old], found
    from the left, is replaced.  [skip] counts the characters of an
    occurrence that has been replaced and is still to be passed over. *)
Fixpoint replace_from (skip : nat) (old new s : string) : string :=
  match s with
  | EmptyString => EmptyString
  | String d s' =>
      match skip with
      | S k => replace_from k old new s'
      | O =>
          if startswith old s
          then new +:+ replace_from (String.length old - 1) old new s'
          else String d (replace_from O old new s')
      end
  end.

(** Only used with a non-empty [old]. *)
Definition replace (old new s : string) : string := replace_from 0 old new s.

(** [s.split(sep)] for a one-character separator. *)
Fixpoint split (sep : ascii) (s : string) : list string :=
  match s with
  | EmptyString => [EmptyString]
  | String d s' =>
      if Ascii.eqb sep d then EmptyString :: split sep s'
      else match split sep s' with
           | p :: ps => String d p :: ps
           | [] => [String d EmptyString]
           end
  end.

(** [sep.join(l)] *)
Fixpoint join (sep : string) (l : list string) : string :=
  match l with
  | [] => EmptyString
  | [x] => x
  | x :: l' => x +:+ sep +:+ join sep l'
  end.

Definition is_empty (s : string) : bool :=
  match s with EmptyString => true | _ => false end.

(** [s.endswith(suffix)]: the last [len(suffix)] characters of [s] are
    [suffix]. *)
Definition endswith (suffix s : string) : bool :=
  (String.length suffix <=? String.length s)%nat
  && String.eqb (drop (String.length s - String.length suffix) s) suffix.

End Str.

(** ** [urllib.parse] *)

(** Host validation that [urlsplit] delegates to the [ipaddress] and
    [unicodedata] modules.  Both raise [ValueError] on rejection.  They are
    parameters of the development: every theorem holds for every
    implementation of them. *)
Class HostChecks : Type := {
  (** [_check_bracketed_netloc]: no exception raised. *)
  bracketed_netloc_ok : string -> bool;
  (** The NFKC part of [_checknetloc], reached by non-ASCII hosts only. *)
  nfkc_netloc_ok : string -> bool
}.

(** The checks accept: what CPython does on every ASCII host that contains
    no bracket.  Used to evaluate the model on concrete links. *)
Definition accept_hosts : HostChecks :=
  {| bracketed_netloc_ok := fun _ => true; nfkc_netloc_ok := fun _ => true |}.

Module Urllib.

Definition code (c : ascii) : nat := nat_of_ascii c.

(** [_WHATWG_C0_CONTROL_OR_SPACE]: the characters 0x00 .. 0x20. *)
Definition is_c0_or_space (c : ascii) : bool := (code c <=? 32)%nat.

(** [_UNSAFE_URL_BYTES_TO_REMOVE = ['\t', '\r', '\n']] *)
Definition is_unsafe (c : ascii) : bool :=
  ((code c =? 9) || (code c =? 13) || (code c =? 10))%nat.

Definition is_upper (c : ascii) : bool := ((65 <=? code c) && (code c <=? 90))%nat.
Definition is_lower (c : ascii) : bool := ((97 <=? code c) && (code c <=? 122))%nat.
Definition is_digit (c : ascii) : bool := ((48 <=? code c) && (code c <=? 57))%nat.

(** [c.isascii() and c.isalpha()] *)
Definition is_ascii_alpha (c : ascii) : bool := is_upper c || is_lower c.

(** [c in scheme_chars] *)
Definition is_scheme_char (c : ascii) : bool :=
  is_ascii_alpha c || is_digit c
  || Ascii.eqb c "+" || Ascii.eqb c "-" || Ascii.eqb c ".".

(** [str.lower] on one character; only applied to scheme characters. *)
Definition lower_char (c : ascii) : ascii :=
  if is_upper c then ascii_of_nat (code c + 32) else c.

Definition lower (s : string) : string := Str.map lower_char s.

(** [netloc.isascii()] *)
Definition isascii (s : string) : bool := Str.forallb (fun c => (code c <? 128)%nat) s.

Definition in_list (s : string) (l : list string) : bool :=
  existsb (String.eqb s) l.

Definition uses_netloc : list string :=
  [""; "ftp"; "http"; "gopher"; "nntp"; "telnet";
   "imap"; "wais"; "file"; "mms"; "https"; "shttp";
   "snews"; "prospero"; "rtsp"; "rtspu"; "rsync";
   "svn"; "svn+ssh"; "sftp"; "nfs"; "git"; "git+ssh";
   "ws"; "wss"].

Definition uses_params : list string :=
  [""; "ftp"; "hdl"; "prospero"; "http"; "imap";
   "https"; "shttp"; "rtsp"; "rtspu"; "sip"; "sips";
   "mms"; "sftp"; "tel"].

Record SplitResult : Type := mkSplit {
  s_scheme : string; s_netloc : string; s_path : string;
  s_query : string; s_fragment : string
}.

Record ParseResult : Type := mkParse {
  scheme : string; netloc : string; path : string;
  params : string; query : string; fragment : string
}.

(** [parsed_url._replace(query=q)] *)
Definition replace_query (p : ParseResult) (q : string) : ParseResult :=
  {| scheme := scheme p; netloc := netloc p; path := path p;
     params := params p; query := q; fragment := fragment p |}.

(** The scheme step of [urlsplit]:
    [i = url.find(':')]; when [i > 0], [url[0]] is an ASCII letter and every
    character of [url[:i]] is a scheme character, the scheme is
    [url[:i].lower()] and the url continues at [url[i+1:]]. *)
Definition split_scheme (url : string) : string * string :=
  match Str.partition ":" url with
  | Some (String c0 cs, rest) =>
      if is_ascii_alpha c0 && Str.forallb is_scheme_char (String c0 cs)
      then (lower (String c0 cs), rest)
      else (EmptyString, url)
  | _ => (EmptyString, url)
  end.

Definition is_netloc_delim (c : ascii) : bool :=
  Ascii.eqb c "/" || Ascii.eqb c "?" || Ascii.eqb c "#".

(** [_splitnetloc(url, 2)]: the host runs from index 2 to the first of
    [/], [?], [#]. *)
Definition splitnetloc (url : string) : string * string :=
  Str.break is_netloc_delim (Str.drop 2 url).

(** [url.split(c, 1)] guarded by [c in url]. *)
Definition split_once (c : ascii) (url : string) : string * string :=
  match Str.partition c url with
  | Some (l, r) => (l, r)
  | None => (url, EmptyString)
  end.

Section WithHostChecks.
Context {hc : HostChecks}.

(** [_checknetloc] *)
Definition checknetloc (netloc : string) : bool :=
  if Str.is_empty netloc || isascii netloc then true
  else nfkc_netloc_ok netloc.

(** The bracket tests of [urlsplit]; [false] is [ValueError]. *)
Definition check_brackets (netloc : string) : bool :=
  let o := Str.mem "[" netloc in
  let c := Str.mem "]" netloc in
  if (o && negb c) || (c && negb o) then false
  else if o && c then bracketed_netloc_ok netloc
  else true.

Definition urlsplit (url : string) : res SplitResult :=
  let url := Str.lstrip is_c0_or_space url in
  let url := Str.filter (fun c => negb (is_unsafe c)) url in
  let (scheme, url) := split_scheme url in
  let finish (netloc url : string) : res SplitResult :=
    let (url, fragment) := split_once "#" url in
    let (url, query) := split_once "?" url in
    if checknetloc netloc
    then Ok (mkSplit scheme netloc url query fragment)
    else Raise ValueError in
  if Str.startswith "//" url then
    let (netloc, url) := splitnetloc url in
    if check_brackets netloc then finish netloc url
    else Raise ValueError
  else finish EmptyString url.

(** [_splitparams]: the parameters start at the first [;] of the last
    path segment. *)
Definition splitparams (url : string) : string * string :=
  if Str.mem "/" url then
    match Str.rcut "/" url with
    | Some (dir, seg) =>
        match Str.partition ";" seg with
        | Some (l, r) => (dir +:+ l, r)
        | None => (url, EmptyString)
        end
    | None => (url, EmptyString)
    end
  else split_once ";" url.

Definition urlparse (url : string) : res ParseResult :=
  res_bind (urlsplit url) (fun sp =>
    let (url, params) :=
      if in_list (s_scheme sp) uses_params && Str.mem ";" (s_path sp)
      then splitparams (s_path sp)
      else (s_path sp, EmptyString) in
    Ok (mkParse (s_scheme sp) (s_netloc sp) url params
                (s_query sp) (s_fragment sp))).

End WithHostChecks.

Definition nonempty (s : string) : bool := negb (Str.is_empty s).

Definition urlunsplit (scheme netloc url query fragment : string) : string :=
  let url :=
    if nonempty netloc
       || (nonempty scheme && in_list scheme uses_netloc
           && negb (Str.startswith "//" url))
    then
      let url :=
        if nonempty url && negb (Str.startswith "/" url)
        then "/" +:+ url else url in
      "//" +:+ netloc +:+ url
    else url in
  let url := if nonempty scheme then scheme +:+ ":" +:+ url else url in
  let url := if nonempty query then url +:+ "?" +:+ query else url in
  let url := if nonempty fragment then url +:+ "#" +:+ fragment else url in
  url.

Definition urlunparse (p : ParseResult) : string :=
  let url :=
    if nonempty (params p) then path p +:+ ";" +:+ params p else path p in
  urlunsplit (scheme p) (netloc p) url (query p) (fragment p).

(** *** Percent coding *)

(** The value of a hexadecimal digit ([_hexdig]), if it is one. *)
Definition hexval (c : ascii) : option nat :=
  if is_digit c then Some (code c - 48)
  else if ((65 <=? code c) && (code c <=? 70))%nat then Some (code c - 55)
  else if ((97 <=? code c) && (code c <=? 102))%nat then Some (code c - 87)
  else None.

(** [unquote]: after each [%], two hexadecimal digits make one byte;
    a [%] not followed by two such digits is kept. *)
Fixpoint unquote (s : string) : string :=
  match s with
  | EmptyString => EmptyString
  | String c s' =>
      if Ascii.eqb c "%" then
        match s' with
        | String h (String l s'') =>
            match hexval h, hexval l with
            | Some a, Some b => String (ascii_of_nat (16 * a + b)) (unquote s'')
            | _, _ => String c (unquote s')
            end
        | _ => String c (unquote s')
        end
      else String c (unquote s')
  end.

Definition plus_to_space (c : ascii) : ascii :=
  if Ascii.eqb c "+" then " "%char else c.

(** [unquote(s.replace('+', ' '))], as [parse_qsl] decodes names and
    values. *)
Definition unquote_plus (s : string) : string :=
  unquote (Str.map plus_to_space s).

(** [_ALWAYS_SAFE]: letters, digits and [_.-~]. *)
Definition always_safe (c : ascii) : bool :=
  is_ascii_alpha c || is_digit c
  || Ascii.eqb c "_" || Ascii.eqb c "." || Ascii.eqb c "-" || Ascii.eqb c "~".

(** One upper-case hexadecimal digit, as ['%{:02X}'] prints it. *)
Definition hexdigit (n : nat) : ascii :=
  if (n <? 10)%nat then ascii_of_nat (48 + n) else ascii_of_nat (55 + n).

(** [quote_plus(s, safe='')]: safe bytes are kept, a space becomes [+],
    every other byte becomes [%XX]. *)
Fixpoint quote_plus (s : string) : string :=
  match s with
  | EmptyString => EmptyString
  | String c s' =>
      if always_safe c then String c (quote_plus s')
      else if Ascii.eqb c " " then String "+" (quote_plus s')
      else String "%" (String (hexdigit (code c / 16))
                        (String (hexdigit (code c mod 16)) (quote_plus s')))
  end.

(** *** Query strings *)

(** The dictionary [parse_qs] builds: names in order of first insertion,
    each with the list of its values. *)
Definition qdict : Type := list (string * list string).

(** [name in d] *)
Definition has_key (name : string) (d : qdict) : bool :=
  existsb (fun e => String.eqb name (fst e)) d.

(** [d[name].append(value)] when [name in d], [d[name] = [value]]
    otherwise. *)
Fixpoint dict_add (name value : string) (d : qdict) : qdict :=
  match d with
  | [] => [(name, [value])]
  | (k, vs) :: d' =>
      if String.eqb name k then (k, vs ++ [value]) :: d'
      else (k, vs) :: dict_add name value d'
  end.

(** [del d[name]] *)
Definition dict_del (name : string) (d : qdict) : qdict :=
  List.filter (fun e => negb (String.eqb name (fst e))) d.

(** One field of [parse_qsl] with [keep_blank_values=False]: a field
    without [=] or with an empty value is dropped. *)
Definition parse_field (name_value : string) : option (string * string) :=
  match Str.partition "=" name_value with
  | Some (n, v) =>
      if Str.is_empty v then None
      else Some (unquote_plus n, unquote_plus v)
  | None => None
  end.

Definition parse_qsl (qs : string) : list (string * string) :=
  if Str.is_empty qs then []
  else omap parse_field (Str.split "&" qs).

Definition parse_qs (qs : string) : qdict :=
  fold_left (fun d nv => dict_add (fst nv) (snd nv) d) (parse_qsl qs) [].

(** The [(name, value)] pairs [urlencode(d, doseq=True)] walks through. *)
Definition dict_items (d : qdict) : list (string * string) :=
  flat_map (fun e => List.map (fun v => (fst e, v)) (snd e)) d.

Definition encode_field (nv : string * string) : string :=
  quote_plus (fst nv) +:+ "=" +:+ quote_plus (snd nv).

(** [urlencode(d, doseq=True)] *)
Definition urlencode (d : qdict) : string :=
  Str.join "&" (List.map encode_field (dict_items d)).

End Urllib.

Import Urllib.

(** ** The data frame column *)

(** The rows of the column [column_name], in row order: the row label and
    the cell.  [None] is a missing cell (NaN); the column of links holds text
    or nothing. *)
Definition frame : Type := list (nat * option string).

(** [df.at[index, column_name] = v]: every row labelled [index] is set; a
    label that is absent is added as a new last row. *)
Definition df_set (df : frame) (index : nat) (v : option string) : frame :=
  if existsb (fun r => Nat.eqb (fst r) index) df
  then List.map (fun r => if Nat.eqb (fst r) index then (fst r, v) else r) df
  else (df ++ [(index, v)])%list.

(** [df.index[df[column_name] == link].tolist()[0]]; [None] is the
    [IndexError] of indexing an empty list. *)
Fixpoint first_index (df : frame) (link : string) : option nat :=
  match df with
  | [] => None
  | (i, c) :: df' =>
      if bool_decide (c = Some link) then Some i else first_index df' link
  end.

(** [read_links]: [df[column_name].dropna().tolist()] *)
Definition read_links (df : frame) : list string :=
  omap snd df.

(** ** Normalisation *)

(** The body of the loop of [update_links_to_https] for one text cell: the
    new cell and the increment of [counter].  Both tests look at the cell as
    it was read. *)
Definition update_link_to_https (link : string) : string * nat :=
  let '(cell, counter) :=
    if Str.startswith "//" link then ("https:" +:+ link, 1) else (link, 0) in
  if Str.startswith "http://" link
  then (Str.replace "http://" "https://" link, S counter)
  else (cell, counter).

Definition update_links_to_https (df : frame) : frame * nat :=
  fold_left
    (fun '(acc, counter) '(index, cell) =>
       match cell with
       | Some link =>
           let '(updated_link, n) := update_link_to_https link in
           if Nat.eqb n 0 then (acc, counter)
           else (df_set acc index (Some updated_link), counter + n)
       | None => (acc, counter)
       end)
    df (df, 0).

Section Script.
Context {hc : HostChecks}.

(** The body of the loop of [remove_igshid_parameter] for one text cell:
    [None] when the cell is left alone, the new cell otherwise.  A
    [ValueError] of [urlparse] is not handled by the script. *)
Definition remove_igshid_link (link : string) : res (option string) :=
  res_bind (urlparse link) (fun parsed_url =>
    let query_params := parse_qs (query parsed_url) in
    if has_key "igshid" query_params then
      let query_params := dict_del "igshid" query_params in
      let new_query := urlencode query_params in
      Ok (Some (urlunparse (replace_query parsed_url new_query)))
    else Ok None).

Definition remove_igshid_parameter (df : frame) : res (frame * nat) :=
  fold_left
    (fun st '(index, cell) =>
       res_bind st (fun '(acc, counter) =>
         match cell with
         | Some link =>
             res_bind (remove_igshid_link link) (fun r =>
               match r with
               | Some new_url => Ok (df_set acc index (Some new_url), S counter)
               | None => Ok (acc, counter)
               end)
         | None => Ok (acc, counter)
         end))
    df (Ok (df, 0)).

(** The two passes on one link, in the order the script runs them. *)
Definition normalize (link : string) : res string :=
  let link := fst (update_link_to_https link) in
  res_bind (remove_igshid_link link) (fun r =>
    Ok (match r with Some new_url => new_url | None => link end)).

(** ** The link checker *)

Definition shorten_url (link : string) : res string :=
  res_bind (urlparse link) (fun parsed_url =>
    Ok (scheme parsed_url +:+ "://" +:+ netloc parsed_url +:+ "/")).

(** What [requests.get] does: a response with a status code, a
    [requests.exceptions.RequestException], or another exception. *)
Inductive response : Type :=
  | Status (status_code : Z)
  | RequestException
  | Unexpected.

(** The network: the answer to the [n]-th request of the run (counted
    from 0), sent to a given url. *)
Definition network : Type := nat -> string -> response.

(** The objects the checks share.  [request_log] is not a variable of the
    script: it records the GET requests issued so far with their answers. *)
Record world : Type := mkWorld {
  verified_links : gmap string string;
  status_codes : gmap Z nat;
  df : frame;
  detailed_results : list (string * string * Z);
  request_log : list (string * response)
}.

Definition set_verified (w : world) (link status : string) : world :=
  mkWorld (<[link := status]> (verified_links w)) (status_codes w) (df w)
          (detailed_results w) (request_log w).

(** [status_codes[c] = status_codes.get(c, 0) + 1] *)
Definition count_status (w : world) (c : Z) : world :=
  mkWorld (verified_links w)
          (<[c := S (default 0 (status_codes w !! c))]> (status_codes w))
          (df w) (detailed_results w) (request_log w).

(** [df.at[index, column_name] = ""] *)
Definition clear_cell (w : world) (index : nat) : world :=
  mkWorld (verified_links w) (status_codes w) (df_set (df w) index (Some ""))
          (detailed_results w) (request_log w).

Definition log_request (w : world) (link : string) (r : response) : world :=
  mkWorld (verified_links w) (status_codes w) (df w) (detailed_results w)
          (request_log w ++ [(link, r)]).

Definition append_result (w : world) (e : string * string * Z) : world :=
  mkWorld (verified_links w) (status_codes w) (df w)
          (detailed_results w ++ [e]) (request_log w).

(** [check_link_status].  [depth] is the call depth the interpreter still
    allows; the function calls itself on the 404 path only. *)
Fixpoint check_link_status (depth : nat) (net : network) (w : world)
    (link : string) (index : nat) (test_websites : bool)
    : world * res (string * Z) :=
  match depth with
  | O => (w, Raise RecursionError)
  | S depth' =>
    if bool_decide (verified_links w !! link = Some "Working")
    then (w, Ok ("Working", 200%Z))
    else
      let r := net (length (request_log w)) link in
      let w := log_request w link r in
      match r with
      | Status status_code =>
          let w := count_status w status_code in
          if (status_code =? 200)%Z then
            (set_verified w link "Working", Ok ("Working", status_code))
          else if (status_code =? 406)%Z then
            (clear_cell (set_verified w link "Not Working") index,
             Ok ("Not Working", status_code))
          else if (status_code =? 404)%Z then
            match shorten_url link with
            | Ok shortened_link =>
                if bool_decide (shortened_link = link) || negb test_websites
                then (set_verified (clear_cell w index) link "Not Working",
                      Ok ("Not Working", status_code))
                else check_link_status depth' net w shortened_link index
                                       test_websites
            | Raise e => (w, Raise e)
            end
          else if (status_code =? 429)%Z then
            (set_verified w link "Working", Ok ("Working", status_code))
          else if (status_code =? 403)%Z then
            if test_websites
            then (set_verified w link "Working", Ok ("Working", status_code))
            else (clear_cell (set_verified w link "Not Working") index,
                  Ok ("Not Working", status_code))
          else
            (clear_cell (set_verified w link "Not Working") index,
             Ok ("Not Working", status_code))
      | RequestException =>
          (set_verified (clear_cell (count_status w 0%Z) index) link
                        "Not Working",
           Ok ("Not Working", 0%Z))
      | Unexpected => (w, Raise OtherError)
      end
  end.

(** The interpreter's default recursion limit. *)
Definition recursion_limit : nat := 1000.

(** ** The dispatcher *)

(** [process_link]: the updated store and the returned [(link, status)]. *)
Definition process_link (net : network) (test_websites : bool) (w : world)
    (index : nat) (link : string) : world * (string * string) :=
  let '(w, r) :=
    check_link_status recursion_limit net w link index test_websites in
  let '(status, status_code) :=
    match r with
    | Ok (status, status_code) => (status, status_code)
    | Raise _ => ("Error", 0%Z)
    end in
  (append_result w (link, status, status_code), (link, status)).

(** The arguments of the [executor.submit] calls: one task per link, its
    row found by first match.  An [IndexError] there is not handled. *)
Fixpoint submit (df : frame) (links : list string) : option (list (nat * string)) :=
  match links with
  | [] => Some []
  | link :: links' =>
      match first_index df link, submit df links' with
      | Some index, Some tasks => Some ((index, link) :: tasks)
      | _, _ => None
      end
  end.

(** The tasks run one after the other, in the order they complete; a
    completed future holds what [process_link] returned. *)
Fixpoint run_tasks (net : network) (test_websites : bool) (w : world)
    (tasks : list (nat * string)) : world * list (res (string * string)) :=
  match tasks with
  | [] => (w, [])
  | (index, link) :: tasks' =>
      let '(w, out) := process_link net test_websites w index link in
      let '(w, outs) := run_tasks net test_websites w tasks' in
      (w, Ok out :: outs)
  end.

(** The body of the [as_completed] loop: [future.result()] either returns
    or raises, and exactly one counter moves. *)
Definition tally_one (counts : nat * nat) (future : res (string * string))
    : nat * nat :=
  let '(working_count, not_working_count) := counts in
  let status :=
    match future with
    | Ok (_, status) => status
    | Raise _ => "Error"
    end in
  if String.eqb status "Working"
  then (S working_count, not_working_count)
  else (working_count, S not_working_count).

Definition tally (futures : list (res (string * string))) : nat * nat :=
  fold_left tally_one futures (0, 0).

Record summary : Type := mkSummary {
  final : world;
  working_count : nat;
  not_working_count : nat
}.

(** Step 4 of the script.  [completion] is the order in which the pool
    completes the submitted tasks. *)
Definition run_all (net : network) (test_websites : bool) (w : world)
    (links : list string) (completion : list (nat * string) -> list (nat * string))
    : option summary :=
  match submit (df w) links with
  | Some tasks =>
      let '(w, futures) := run_tasks net test_websites w (completion tasks) in
      let '(working, not_working) := tally futures in
      Some (mkSummary w working not_working)
  | None => None
  end.

(** The script from step 1 to step 4, on the column as loaded and the
    cache as loaded. *)
Definition main (net : network) (test_websites : bool)
    (loaded : frame) (cache : gmap string string)
    (completion : list (nat * string) -> list (nat * string))
    : res summary :=
  let '(df1, _) := update_links_to_https loaded in
  res_bind (remove_igshid_parameter df1) (fun '(df2, _) =>
    let links := read_links df2 in
    match run_all net test_websites (mkWorld cache ∅ df2 [] []) links completion with
    | Some s => Ok s
    | None => Raise IndexError
    end).

End Script.

(** ** Loading and saving *)

Section Files.
Context {DataFrame Disk : Type}.

(** [pd.read_excel] and [pd.read_csv]: each returns a frame or raises. *)
Variables read_excel read_csv : string -> res DataFrame.

(** [df.to_excel] and [df.to_csv] with [index=False]: each changes the disk
    or raises. *)
Variables to_excel to_csv : DataFrame -> string -> Disk -> res Disk.

Definition load_dataframe (file_path : string) : res DataFrame :=
  if Str.endswith ".xlsx" file_path then read_excel file_path
  else if Str.endswith ".csv" file_path then read_csv file_path
  else Raise ValueError.

Definition save_dataframe (df : DataFrame) (file_path : string) (disk : Disk)
    : res Disk :=
  if Str.endswith ".xlsx" file_path then to_excel df file_path disk
  else if Str.endswith ".csv" file_path then to_csv df file_path disk
  else Raise ValueError.

End Files.

(** * Specification-side definitions *)



(** The total count of the status histogram. *)
Definition histogram_total (h : gmap Z nat) : nat :=
  map_fold (fun _ n acc => n + acc) 0 h.




Section Terminal.
Context {hc : HostChecks}.





End Terminal.

(** * Facts about the [str] methods *)

Module StrFacts.
Import Str.

Lemma append_nil_r s : s +:+ "" = s.
Proof. induction s; cbn; congruence. Qed.

Lemma append_assoc s t u : (s +:+ t) +:+ u = s +:+ (t +:+ u).
Proof. induction s; cbn; congruence. Qed.

Lemma forallb_app p s t : forallb p (s +:+ t) = forallb p s && forallb p t.
Proof. induction s as [|c s IH]; cbn; [done|]. by rewrite IH, andb_assoc. Qed.

Lemma forallb_impl (p q : ascii -> bool) s :
  (forall c, p c = true -> q c = true) ->
  forallb p s = true -> forallb q s = true.
Proof.
  intros Hpq. induction s as [|c s IH]; cbn; [done|].
  intros [Hc Hs]%andb_true_iff. rewrite (Hpq _ Hc). by apply IH.
Qed.

Lemma filter_id keep s : forallb keep s = true -> filter keep s = s.
Proof.
  induction s as [|c s IH]; cbn; [done|].
  intros [-> Hs]%andb_true_iff. by rewrite IH.
Qed.

Lemma forallb_filter keep s : forallb keep (filter keep s) = true.
Proof.
  induction s as [|c s IH]; cbn; [done|].
  destruct (keep c) eqn:Hc; cbn; [by rewrite Hc|done].
Qed.

Lemma forallb_lstrip p strip s :
  forallb p s = true -> forallb p (lstrip strip s) = true.
Proof.
  induction s as [|c s IH]; cbn; [done|].
  intros H. destruct (strip c); [|done].
  apply andb_true_iff in H as [_ H]. by apply IH.
Qed.

Lemma forallb_drop p n s : forallb p s = true -> forallb p (drop n s) = true.
Proof.
  revert s. induction n as [|n IH]; intros [|c s]; cbn; try done.
  intros [_ H]%andb_true_iff. by apply IH.
Qed.

Lemma forallb_map p f s :
  (forall c, p c = true -> p (f c) = true) ->
  forallb p s = true -> forallb p (map f s) = true.
Proof.
  intros Hf. induction s as [|c s IH]; cbn; [done|].
  intros [Hc Hs]%andb_true_iff. by rewrite (Hf _ Hc), IH.
Qed.

(** [mem] as a [forallb]. *)
Lemma mem_false_forallb c s :
  mem c s = false <-> forallb (fun d => negb (Ascii.eqb c d)) s = true.
Proof.
  induction s as [|d s IH]; cbn; [done|].
  destruct (Ascii.eqb c d); cbn; [split; discriminate|exact IH].
Qed.

Lemma mem_app c s t : mem c (s +:+ t) = mem c s || mem c t.
Proof. induction s as [|d s IH]; cbn; [done|]. by destruct (Ascii.eqb c d). Qed.

Lemma partition_none c s : partition c s = None <-> mem c s = false.
Proof.
  induction s as [|d s IH]; cbn; [done|].
  destruct (Ascii.eqb c d); [split; discriminate|].
  destruct (partition c s) as [[l r]|]; [|tauto].
  split; [discriminate|]. intros H. apply IH in H. discriminate.
Qed.

(** [partition] cuts at the first occurrence. *)
Lemma partition_some c s l r :
  partition c s = Some (l, r) ->
  s = l +:+ String c r /\ mem c l = false.
Proof.
  revert l. induction s as [|d s IH]; intros l; cbn; [done|].
  destruct (Ascii.eqb_spec c d) as [->|Hne].
  - intros [= <- <-]. done.
  - destruct (partition c s) as [[l' r']|]; [|done].
    intros [= <- <-]. destruct (IH l' eq_refl) as [-> Hl].
    split; [done|]. cbn. by rewrite (proj2 (Ascii.eqb_neq c d) Hne).
Qed.

Lemma partition_app c s t :
  mem c s = false -> partition c (s +:+ String c t) = Some (s, t).
Proof.
  induction s as [|d s IH]; cbn.
  - by rewrite Ascii.eqb_refl.
  - destruct (Ascii.eqb c d); [done|]. intros H. by rewrite IH.
Qed.

(** A separator that first occurs after [s] is found there or later. *)
Lemma partition_app_absent c s t :
  mem c s = false ->
  partition c (s +:+ t)
  = match partition c t with
    | Some (l, r) => Some (s +:+ l, r)
    | None => None
    end.
Proof.
  induction s as [|d s IH]; cbn.
  - by destruct (partition c t) as [[]|].
  - destruct (Ascii.eqb c d); [done|]. intros H. rewrite IH by done.
    by destruct (partition c t) as [[]|].
Qed.

Lemma break_app stop s d t :
  forallb (fun c => negb (stop c)) s = true -> stop d = true ->
  break stop (s +:+ String d t) = (s, String d t).
Proof.
  intros Hs Hd. induction s as [|c s IH]; cbn.
  - by rewrite Hd.
  - cbn in Hs. apply andb_true_iff in Hs as [Hc Hs].
    apply negb_true_iff in Hc. by rewrite Hc, IH.
Qed.

Lemma break_spec stop s :
  s = fst (break stop s) +:+ snd (break stop s)
  /\ forallb (fun c => negb (stop c)) (fst (break stop s)) = true
  /\ (snd (break stop s) = ""
      \/ exists d t, snd (break stop s) = String d t /\ stop d = true).
Proof.
  induction s as [|c s (IH1 & IH2 & IH3)]; cbn.
  - repeat split. by left.
  - destruct (stop c) eqn:Hc; cbn.
    + repeat split. right. by exists c, s.
    + destruct (break stop s) as [l r]. cbn in *.
      rewrite Hc. repeat split; [congruence|done..].
Qed.

Lemma startswith_app p s : startswith p (p +:+ s) = true.
Proof. induction p as [|c p IH]; cbn; [done|]. by rewrite Ascii.eqb_refl. Qed.

Lemma startswith_spec p s :
  startswith p s = true -> exists t, s = p +:+ t.
Proof.
  revert s. induction p as [|c p IH]; intros s; cbn.
  - by exists s.
  - destruct s as [|d s]; [done|].
    destruct (Ascii.eqb_spec c d) as [->|]; [|done].
    intros [t ->]%IH. by exists t.
Qed.


End StrFacts.

(** * Facts about [urllib.parse] *)

Module UrllibFacts.
Import Str StrFacts.

(** Facts about one character are settled by enumeration. *)
Ltac by_cases_on c :=
  destruct c as [[] [] [] [] [] [] [] []]; vm_compute; try done; auto.

Lemma lower_char_scheme c :
  is_scheme_char c = true -> is_scheme_char (lower_char c) = true.
Proof. by_cases_on c. Qed.

Lemma lower_char_alpha c :
  is_ascii_alpha c = true -> is_ascii_alpha (lower_char c) = true.
Proof. by_cases_on c. Qed.

Lemma lower_char_idem c : lower_char (lower_char c) = lower_char c.
Proof. by_cases_on c. Qed.

Lemma scheme_char_not_colon c :
  is_scheme_char c = true -> negb (Ascii.eqb ":" c) = true.
Proof. by_cases_on c. Qed.

Lemma scheme_char_safe c :
  is_scheme_char c = true -> negb (is_unsafe c) = true.
Proof. by_cases_on c. Qed.

Lemma scheme_char_not_delim c :
  is_scheme_char c = true -> negb (is_netloc_delim c) = true.
Proof. by_cases_on c. Qed.

Lemma alpha_not_c0 c : is_ascii_alpha c = true -> is_c0_or_space c = false.
Proof. by_cases_on c. Qed.

Lemma lower_idem s : lower (lower s) = lower s.
Proof.
  induction s as [|c s IH]; cbn; [done|].
  unfold lower in IH. by rewrite lower_char_idem, IH.
Qed.

(** A scheme as [urlsplit] returns it: not empty, led by a letter, made
    of scheme characters, in lower case. *)
Definition is_scheme (s : string) : Prop :=
  exists c cs,
    s = String c cs /\ is_ascii_alpha c = true
    /\ forallb is_scheme_char s = true /\ lower s = s.

Lemma split_scheme_spec url :
  (split_scheme url = ("", url))
  \/ (exists pre,
        url = pre +:+ String ":" (snd (split_scheme url))
        /\ fst (split_scheme url) = lower pre
        /\ is_scheme (lower pre)).
Proof.
  unfold split_scheme.
  destruct (partition ":" url) as [[[|c cs] rest]|] eqn:Hp; [by left| |by left].
  destruct (is_ascii_alpha c) eqn:Hc; [|by left]. cbn [andb].
  destruct (forallb is_scheme_char (String c cs)) eqn:Hall; [|by left].
  right. exists (String c cs). cbn [fst snd].
  apply partition_some in Hp as [-> _]. repeat split.
  exists (lower_char c), (lower cs). repeat split.
  - by apply lower_char_alpha.
  - apply (forallb_map is_scheme_char lower_char (String c cs)); [|done].
    apply lower_char_scheme.
  - apply lower_idem.
Qed.

(** [split_scheme] finds a scheme that is written out in front. *)
Lemma split_scheme_app s rest :
  is_scheme s -> split_scheme (s +:+ String ":" rest) = (s, rest).
Proof.
  intros (c & cs & -> & Hc & Hall & Hlow).
  unfold split_scheme. rewrite partition_app.
  - by rewrite Hc, Hall, Hlow.
  - apply mem_false_forallb.
    eapply forallb_impl; [|exact Hall]. apply scheme_char_not_colon.
Qed.

Lemma scheme_not_stripped s rest :
  is_scheme s -> lstrip is_c0_or_space (s +:+ rest) = s +:+ rest.
Proof.
  intros (c & cs & -> & Hc & _). cbn. by rewrite (alpha_not_c0 _ Hc).
Qed.

Lemma scheme_safe s :
  is_scheme s -> forallb (fun c => negb (is_unsafe c)) s = true.
Proof.
  intros (c & cs & _ & _ & Hall & _).
  eapply forallb_impl; [|exact Hall]. apply scheme_char_safe.
Qed.

Lemma scheme_nonempty s : is_scheme s -> nonempty s = true.
Proof. by intros (c & cs & -> & _). Qed.

Section WithHostChecks.
Context {hc : HostChecks}.

Abbreviation safe := (fun c => negb (is_unsafe c)).
Abbreviation no_delim := (fun c => negb (is_netloc_delim c)).

(** What [urlsplit] guarantees about the host it returns. *)
Definition is_netloc (n : string) : Prop :=
  forallb no_delim n = true /\ forallb safe n = true
  /\ check_brackets n = true /\ checknetloc n = true.

Lemma empty_is_netloc : is_netloc "".
Proof. by repeat split. Qed.

Lemma urlsplit_scheme_netloc url sp :
  urlsplit url = Ok sp ->
  (s_scheme sp = "" \/ is_scheme (s_scheme sp)) /\ is_netloc (s_netloc sp).
Proof.
  unfold urlsplit.
  set (u := filter _ (lstrip _ url)).
  assert (Hu : forallb safe u = true) by apply forallb_filter.
  clearbody u.
  assert (Hrest : forallb safe (snd (split_scheme u)) = true).
  { destruct (split_scheme_spec u) as [->|(pre & Hpre & _)]; [done|].
    rewrite Hpre, forallb_app in Hu. cbn in Hu.
    by apply andb_true_iff in Hu as [_ [_ ?]%andb_true_iff]. }
  assert (Hsch : fst (split_scheme u) = "" \/ is_scheme (fst (split_scheme u))).
  { destruct (split_scheme_spec u) as [->|(pre & _ & -> & ?)]; auto. }
  destruct (split_scheme u) as [sch rest]. cbn [fst snd] in *.
  assert (Hfinish : forall n r,
    (let (url0, fragment) := split_once "#" r in
     let (url1, query) := split_once "?" url0 in
     if checknetloc n then Ok (mkSplit sch n url1 query fragment)
     else Raise ValueError) = Ok sp ->
    s_scheme sp = sch /\ s_netloc sp = n /\ checknetloc n = true).
  { intros n r. destruct (split_once "#" r), (split_once "?" s).
    destruct (checknetloc n); [|done]. by intros [= <-]. }
  destruct (startswith "//" rest) eqn:Hss.
  - unfold splitnetloc.
    pose proof (break_spec is_netloc_delim (drop 2 rest)) as (Hb & Hnd & _).
    assert (Hsafe : forallb safe (fst (break is_netloc_delim (drop 2 rest))) = true).
    { pose proof (forallb_drop safe 2 rest Hrest) as Hd.
      rewrite Hb, forallb_app in Hd. by apply andb_true_iff in Hd as [? _]. }
    destruct (break is_netloc_delim (drop 2 rest)) as [n r]. cbn [fst snd] in *.
    destruct (check_brackets n) eqn:Hcb; [|done].
    intros (-> & -> & Hck)%Hfinish. by repeat split.
  - intros (-> & -> & Hck)%Hfinish. split; [done|]. apply empty_is_netloc.
Qed.

(** [urlsplit] reads back the base url built from a scheme and a host. *)
Lemma urlsplit_base s n :
  is_scheme s -> is_netloc n ->
  urlsplit (s +:+ "://" +:+ n +:+ "/") = Ok (mkSplit s n "/" "" "").
Proof.
  intros Hs (Hnd & Hsafe & Hcb & Hck).
  unfold urlsplit.
  rewrite scheme_not_stripped by done.
  rewrite filter_id.
  2:{ rewrite forallb_app, (scheme_safe s Hs). cbn.
      by rewrite forallb_app, Hsafe. }
  change (s +:+ "://" +:+ n +:+ "/") with (s +:+ String ":" ("//" +:+ n +:+ "/")).
  rewrite split_scheme_app by done.
  cbn [startswith String.append Ascii.eqb Bool.eqb].
  unfold splitnetloc. cbn [drop String.append].
  rewrite (break_app is_netloc_delim n "/" "") by done.
  by rewrite Hcb, Hck.
Qed.

(** In a url that starts with a colon [urlsplit] finds neither a scheme
    nor a host: this is the base url of a link without scheme. *)
Lemma urlsplit_colon t :
  exists p q f, urlsplit (String ":" t) = Ok (mkSplit "" "" p q f).
Proof.
  unfold urlsplit.
  change (lstrip is_c0_or_space (String ":" t)) with (String ":" t).
  change (filter safe (String ":" t)) with (String ":" (filter safe t)).
  set (t' := filter safe t).
  change (split_scheme (String ":" t')) with ("", String ":" t').
  change (startswith "//" (String ":" t')) with false. cbv iota beta.
  destruct (split_once "#" _) as [u f], (split_once "?" u) as [p q].
  by exists p, q, f.
Qed.

End WithHostChecks.

End UrllibFacts.

(** * Facts about query strings *)

Module QueryFacts.
Import Str StrFacts UrllibFacts.

(** The characters [quote_plus] writes. *)
Definition quoted_char (c : ascii) : bool :=
  always_safe c || Ascii.eqb c "+" || Ascii.eqb c "%".

Lemma quoted_chars_of c :
  forallb quoted_char (quote_plus (String c "")) = true.
Proof. by_cases_on c. Qed.

Lemma quote_plus_cons c s :
  quote_plus (String c s) = quote_plus (String c "") +:+ quote_plus s.
Proof.
  cbn [quote_plus].
  destruct (always_safe c); [done|]. by destruct (Ascii.eqb c " ").
Qed.

Lemma quote_plus_chars s : forallb quoted_char (quote_plus s) = true.
Proof.
  induction s as [|c s IH]; [done|].
  by rewrite quote_plus_cons, forallb_app, quoted_chars_of, IH.
Qed.

Lemma quote_plus_empty s : is_empty (quote_plus s) = is_empty s.
Proof.
  destruct s as [|c s]; [done|]. cbn [quote_plus].
  destruct (always_safe c); [done|]. by destruct (Ascii.eqb c " ").
Qed.

(** Decoding undoes the coding of one character. *)
Lemma unquote_plus_one c t :
  unquote (map plus_to_space (quote_plus (String c "") +:+ t))
  = String c (unquote (map plus_to_space t)).
Proof. destruct c as [[] [] [] [] [] [] [] []]; reflexivity. Qed.

Lemma map_app f s t : map f (s +:+ t) = map f s +:+ map f t.
Proof. induction s as [|c s IH]; cbn; [done|]. by rewrite IH. Qed.

Lemma unquote_quote_plus s : unquote_plus (quote_plus s) = s.
Proof.
  unfold unquote_plus. induction s as [|c s IH]; [done|].
  rewrite quote_plus_cons, unquote_plus_one. by rewrite IH.
Qed.

Lemma quoted_not c d :
  quoted_char d = true -> always_safe c = false ->
  Ascii.eqb c "+" = false -> Ascii.eqb c "%" = false ->
  negb (Ascii.eqb c d) = true.
Proof.
  intros Hd Hs Hp Hq. destruct (Ascii.eqb_spec c d) as [->|]; [|done].
  unfold quoted_char in Hd. by rewrite Hs, Hp, Hq in Hd.
Qed.

(** A character that [quote_plus] never writes does not occur in its
    output. *)
Lemma quote_plus_avoids c s :
  quoted_char c = false -> mem c (quote_plus s) = false.
Proof.
  intros Hc. apply mem_false_forallb.
  eapply forallb_impl; [|apply quote_plus_chars].
  intros d Hd. destruct (Ascii.eqb_spec c d) as [->|]; [congruence|done].
Qed.

(** *** [split] and [join] *)

Lemma split_fresh sep s : mem sep s = false -> split sep s = [s].
Proof.
  induction s as [|c s IH]; cbn; [done|].
  destruct (Ascii.eqb sep c); [done|]. intros H. by rewrite IH.
Qed.

Lemma split_app sep s t :
  mem sep s = false -> split sep (s +:+ String sep t) = s :: split sep t.
Proof.
  induction s as [|c s IH]; cbn.
  - by rewrite Ascii.eqb_refl.
  - destruct (Ascii.eqb sep c); [done|]. intros H. by rewrite IH.
Qed.

Lemma split_join sep l :
  l <> [] -> Forall (fun x => mem sep x = false) l ->
  split sep (join (String sep "") l) = l.
Proof.
  induction l as [|x l IH]; [done|]. intros _ Hall.
  apply Forall_cons in Hall as [Hx Hl].
  destruct l as [|y l]; [by apply split_fresh|].
  change (join (String sep "") (x :: y :: l))
    with (x +:+ String sep (join (String sep "") (y :: l))).
  rewrite split_app by done. by rewrite IH.
Qed.

(** *** The dictionary of [parse_qs] *)

Definition named (k : string) (nv : string * string) : bool :=
  String.eqb k (fst nv).

Definition add_pair (d : qdict) (nv : string * string) : qdict :=
  dict_add (fst nv) (snd nv) d.

Lemma parse_qs_fold qs : parse_qs qs = fold_left add_pair (parse_qsl qs) [].
Proof. reflexivity. Qed.

Lemma has_key_add k n v d :
  has_key k (dict_add n v d) = has_key k d || String.eqb k n.
Proof.
  unfold has_key.
  induction d as [|[k' vs] d IH]; cbn [dict_add existsb fst].
  - by rewrite orb_false_r.
  - destruct (String.eqb_spec n k') as [->|Hn]; cbn [existsb fst].
    + by destruct (String.eqb k k'), (existsb _ d).
    + rewrite IH. by rewrite orb_assoc.
Qed.

Lemma has_key_fold k l d :
  has_key k (fold_left add_pair l d) = has_key k d || existsb (named k) l.
Proof.
  revert d. induction l as [|nv l IH]; intros d; cbn [fold_left existsb].
  - by rewrite orb_false_r.
  - rewrite IH. unfold add_pair at 1. rewrite has_key_add.
    by rewrite orb_assoc.
Qed.

Lemma dict_items_cons k vs d :
  dict_items ((k, vs) :: d) = (List.map (fun v => (k, v)) vs ++ dict_items d)%list.
Proof. reflexivity. Qed.

Lemma has_key_cons k k' vs d :
  has_key k ((k', vs) :: d) = String.eqb k k' || has_key k d.
Proof. reflexivity. Qed.

Lemma has_key_items k d :
  has_key k d = false -> existsb (named k) (dict_items d) = false.
Proof.
  induction d as [|[k' vs] d IH]; [done|].
  rewrite has_key_cons, dict_items_cons.
  intros [Hk Hd]%orb_false_iff. rewrite existsb_app, (IH Hd), orb_false_r.
  clear IH Hd. induction vs as [|v vs IHv]; [done|].
  cbn [List.map existsb]. unfold named at 1. cbn [fst]. by rewrite Hk.
Qed.

Lemma has_key_del k d : has_key k (dict_del k d) = false.
Proof.
  induction d as [|[k' vs] d IH]; [done|].
  unfold dict_del. cbn [List.filter fst]. fold (dict_del k d).
  destruct (String.eqb k k') eqn:Hk; cbn [negb]; [done|].
  by rewrite has_key_cons, Hk.
Qed.

(** *** Reading back what [urlencode] wrote *)

Lemma parse_field_encode nv :
  parse_field (encode_field nv)
  = if is_empty (snd nv) then None else Some nv.
Proof.
  destruct nv as [k v]. unfold parse_field, encode_field. cbn [fst snd].
  change (quote_plus k +:+ "=" +:+ quote_plus v)
    with (quote_plus k +:+ String "=" (quote_plus v)).
  rewrite partition_app by by apply quote_plus_avoids.
  rewrite quote_plus_empty. destruct (is_empty v); [done|].
  by rewrite !unquote_quote_plus.
Qed.

Lemma encode_field_no_amp nv : mem "&" (encode_field nv) = false.
Proof.
  unfold encode_field. rewrite !mem_app.
  by rewrite !quote_plus_avoids.
Qed.

Lemma encode_field_nonempty nv : is_empty (encode_field nv) = false.
Proof.
  unfold encode_field. destruct (quote_plus (fst nv)); done.
Qed.

Lemma join_nonempty sep x l :
  is_empty x = false -> is_empty (join sep (x :: l)) = false.
Proof. destruct l, x; done. Qed.

(** [parse_qsl] reads back the pairs that were encoded, except those with
    an empty value. *)
Lemma parse_qsl_urlencode d :
  parse_qsl (urlencode d)
  = List.filter (fun nv => negb (is_empty (snd nv))) (dict_items d).
Proof.
  unfold parse_qsl, urlencode.
  destruct (dict_items d) as [|nv l] eqn:Hitems; [done|].
  rewrite <- Hitems.
  assert (Hne : is_empty (join "&" (List.map encode_field (dict_items d))) = false).
  { rewrite Hitems. cbn [List.map]. apply join_nonempty, encode_field_nonempty. }
  rewrite Hne, split_join.
  - clear. induction (dict_items d) as [|nv l IH]; [done|]. cbn.
    rewrite parse_field_encode. destruct (is_empty (snd nv)); cbn; by rewrite IH.
  - by rewrite Hitems.
  - clear. induction (dict_items d) as [|nv l IH]; constructor; [|done].
    apply encode_field_no_amp.
Qed.

(** Encoding a dictionary without a key and parsing the result does not
    bring the key back. *)
Lemma has_key_parse_urlencode k d :
  has_key k d = false -> has_key k (parse_qs (urlencode d)) = false.
Proof.
  intros Hk. rewrite parse_qs_fold, has_key_fold, parse_qsl_urlencode. cbn.
  apply has_key_items in Hk. revert Hk.
  induction (dict_items d) as [|nv l IH]; [done|]. cbn.
  intros [Hn Hl]%orb_false_iff.
  destruct (is_empty (snd nv)); cbn; [by apply IH|]. by rewrite Hn, IH.
Qed.

(** What [urlencode] writes contains no [#] and nothing [urlsplit]
    removes. *)
Definition query_char (c : ascii) : bool :=
  quoted_char c || Ascii.eqb c "=" || Ascii.eqb c "&".

Lemma urlencode_chars d : forallb query_char (urlencode d) = true.
Proof.
  unfold urlencode.
  induction (dict_items d) as [|nv l IH]; [done|].
  assert (Hnv : forallb query_char (encode_field nv) = true).
  { unfold encode_field. rewrite !forallb_app. cbn.
    assert (H : forall s, forallb query_char (quote_plus s) = true).
    { intros s. eapply forallb_impl; [|apply quote_plus_chars].
      intros c Hc. unfold query_char. by rewrite Hc. }
    by rewrite !H. }
  destruct l as [|nv' l]; [done|].
  change (join "&" (List.map encode_field (nv :: nv' :: l)))
    with (encode_field nv +:+ String "&" (join "&" (List.map encode_field (nv' :: l)))).
  rewrite forallb_app, Hnv. cbn [forallb andb]. by rewrite IH.
Qed.

Lemma query_char_safe c : query_char c = true -> negb (is_unsafe c) = true.
Proof. by_cases_on c. Qed.

Lemma query_char_not_hash c :
  query_char c = true -> negb (Ascii.eqb "#" c) = true.
Proof. by_cases_on c. Qed.

(** *** Grouping by name *)












Lemma filter_named_own k vs :
  List.filter (named k) (List.map (fun v => (k, v)) vs)
  = List.map (fun v => (k, v)) vs.
Proof.
  induction vs as [|v vs IH]; [done|]. cbn [List.map List.filter].
  unfold named at 1. cbn [fst]. by rewrite String.eqb_refl, IH.
Qed.

Lemma filter_named_other k k' vs :
  String.eqb k k' = false ->
  List.filter (named k) (List.map (fun v => (k', v)) vs) = [].
Proof.
  intros Hk. induction vs as [|v vs IH]; [done|]. cbn [List.map List.filter].
  unfold named at 1. cbn [fst]. by rewrite Hk.
Qed.










End QueryFacts.

(** * Parsing a url that was put back together *)

Module ReparseFacts.
Import Str StrFacts UrllibFacts QueryFacts.

(** Neither [?] nor [#]: the characters of everything that precedes the
    query in a url. *)
Definition plain_char (c : ascii) : bool :=
  negb (Ascii.eqb c "?") && negb (Ascii.eqb c "#").

Definition plain (s : string) : Prop := forallb plain_char s = true.

(** The end of a url from the query on: empty, or led by [?] or [#]. *)
Definition is_tail (t : string) : Prop :=
  t = "" \/ exists d t', t = String d t' /\ plain_char d = false.

Lemma plain_char_not_c0 c : plain_char c = false -> is_c0_or_space c = false.
Proof. by_cases_on c. Qed.

Lemma plain_char_delim c : plain_char c = false -> is_netloc_delim c = true.
Proof. by_cases_on c. Qed.

Lemma plain_char_not_scheme c : plain_char c = false -> is_scheme_char c = false.
Proof. by_cases_on c. Qed.

Lemma plain_char_not_colon c : plain_char c = false -> Ascii.eqb ":" c = false.
Proof. by_cases_on c. Qed.

Lemma plain_char_not_slash c : plain_char c = false -> Ascii.eqb "/" c = false.
Proof. by_cases_on c. Qed.

Lemma scheme_char_plain c : is_scheme_char c = true -> plain_char c = true.
Proof. by_cases_on c. Qed.

Lemma not_delim_plain c : negb (is_netloc_delim c) = true -> plain_char c = true.
Proof. by_cases_on c. Qed.

Lemma plain_app s t : plain (s +:+ t) <-> plain s /\ plain t.
Proof. unfold plain. rewrite forallb_app. apply andb_true_iff. Qed.

Lemma plain_mem c s : plain_char c = false -> plain s -> mem c s = false.
Proof.
  intros Hc Hs. apply mem_false_forallb.
  eapply forallb_impl; [|exact Hs].
  intros d Hd. destruct (Ascii.eqb_spec c d) as [->|]; [congruence|done].
Qed.

Lemma filter_app keep s t :
  filter keep (s +:+ t) = filter keep s +:+ filter keep t.
Proof.
  induction s as [|c s IH]; cbn; [done|]. rewrite IH. by destruct (keep c).
Qed.

Lemma plain_filter keep s : plain s -> plain (filter keep s).
Proof.
  unfold plain. induction s as [|c s IH]; cbn; [done|].
  intros [Hc Hs]%andb_true_iff. destruct (keep c); cbn; [rewrite Hc|]; auto.
Qed.

Lemma plain_lstrip strip s : plain s -> plain (lstrip strip s).
Proof. apply forallb_lstrip. Qed.

Lemma lstrip_app_tail s t :
  is_tail t ->
  lstrip is_c0_or_space (s +:+ t) = lstrip is_c0_or_space s +:+ t.
Proof.
  intros Ht. induction s as [|c s IH]; cbn.
  - destruct Ht as [->|(d & t' & -> & Hd)]; [done|].
    cbn. by rewrite (plain_char_not_c0 _ Hd).
  - by destruct (is_c0_or_space c).
Qed.

Lemma partition_cons c d s :
  partition c (String d s)
  = if Ascii.eqb c d then Some ("", s)
    else match partition c s with
         | Some (l, r) => Some (String d l, r)
         | None => None
         end.
Proof. reflexivity. Qed.

Lemma partition_app_present c s t l r :
  partition c s = Some (l, r) -> partition c (s +:+ t) = Some (l, r +:+ t).
Proof.
  revert l. induction s as [|d s IH]; intros l; cbn; [done|].
  destruct (Ascii.eqb c d); [by intros [= <- <-]|].
  destruct (partition c s) as [[l' r']|]; [|done].
  intros [= <- <-]. by rewrite (IH l' eq_refl).
Qed.

Lemma plain_partition c s l r :
  partition c s = Some (l, r) -> plain s -> plain l /\ plain r.
Proof.
  intros [-> _]%partition_some [Hl Hr]%plain_app. split; [done|].
  unfold plain in *. cbn in Hr. by apply andb_true_iff in Hr as [_ ?].
Qed.

Lemma rcut_spec c s l r : rcut c s = Some (l, r) -> s = l +:+ r.
Proof.
  revert l. induction s as [|d s IH]; intros l; cbn; [done|].
  destruct (rcut c s) as [[l' r']|].
  - intros [= <- <-]. by rewrite (IH l' eq_refl).
  - destruct (Ascii.eqb c d); [|done]. by intros [= <- <-].
Qed.

Lemma break_app_tail s t :
  is_tail t ->
  break is_netloc_delim (s +:+ t)
  = (fst (break is_netloc_delim s), snd (break is_netloc_delim s) +:+ t).
Proof.
  intros Ht. induction s as [|c s IH]; cbn.
  - destruct Ht as [->|(d & t' & -> & Hd)]; [done|].
    cbn. by rewrite (plain_char_delim _ Hd).
  - destruct (is_netloc_delim c); [done|].
    rewrite IH. by destruct (break is_netloc_delim s).
Qed.

Lemma plain_break s :
  plain s -> plain (snd (break is_netloc_delim s)).
Proof.
  intros Hs. destruct (break_spec is_netloc_delim s) as (Heq & _ & _).
  rewrite Heq in Hs. by apply plain_app in Hs as [_ ?].
Qed.

(** The scheme step leaves a plain part followed by the same tail. *)
Lemma split_scheme_tail s t :
  plain s -> is_tail t ->
  exists s', snd (split_scheme (s +:+ t)) = s' +:+ t /\ plain s'.
Proof.
  intros Hs Ht. unfold split_scheme.
  destruct (partition ":" s) as [[l r]|] eqn:Hp.
  - rewrite (partition_app_present _ _ t _ _ Hp).
    destruct (plain_partition _ _ _ _ Hp Hs) as [_ Hr].
    destruct l as [|c cs]; [by exists s|].
    destruct (_ && _); [by exists r|by exists s].
  - apply partition_none in Hp. rewrite (partition_app_absent _ _ t Hp).
    destruct (partition ":" t) as [[l r]|] eqn:Hpt; [|by exists s].
    destruct Ht as [->|(d & t' & -> & Hd)]; [done|].
    assert (Hbad : forallb is_scheme_char (s +:+ l) = false).
    { rewrite forallb_app. rewrite partition_cons in Hpt.
      rewrite (plain_char_not_colon _ Hd) in Hpt.
      destruct (partition ":" t') as [[l' r']|]; [|done].
      injection Hpt as <- <-. cbn [forallb].
      by rewrite (plain_char_not_scheme _ Hd), andb_false_r. }
    destruct (s +:+ l) as [|c cs]; [by exists s|].
    rewrite Hbad, andb_false_r. by exists s.
Qed.

Lemma startswith_cons a p b s :
  startswith (String a p) (String b s)
  = if Ascii.eqb a b then startswith p s else false.
Proof. reflexivity. Qed.

Lemma startswith_slashes_tail s t :
  is_tail t -> startswith "//" (s +:+ t) = true ->
  exists s', s = "//" +:+ s'.
Proof.
  intros Ht.
  assert (Hno : forall p, startswith (String "/" p) t = false).
  { intros p. destruct Ht as [->|(d & t' & -> & Hd)]; [done|].
    by rewrite startswith_cons, (plain_char_not_slash _ Hd). }
  destruct s as [|a [|b s]].
  - change ("" +:+ t) with t. by rewrite Hno.
  - change (String a "" +:+ t) with (String a t).
    rewrite startswith_cons. destruct (Ascii.eqb "/" a); [|done].
    by rewrite Hno.
  - change (String a (String b s) +:+ t) with (String a (String b (s +:+ t))).
    rewrite !startswith_cons.
    destruct (Ascii.eqb_spec "/" a) as [<-|]; [|done].
    destruct (Ascii.eqb_spec "/" b) as [<-|]; [|done].
    by exists s.
Qed.

(** The query part of a url put together by [urlunsplit], and what may
    follow it: nothing, or [#] and a fragment. *)
Definition query_part (q : string) : string :=
  if nonempty q then "?" +:+ q else "".

Definition hash_tail (t : string) : Prop :=
  t = "" \/ exists f, t = String "#" f.

Lemma tail_parts q t : hash_tail t -> is_tail (query_part q +:+ t).
Proof.
  intros Ht. unfold query_part.
  destruct q as [|c q]; cbn.
  - destruct Ht as [->|(f & ->)]; [by left|]. right. by exists "#"%char, f.
  - right. by exists "?"%char, (String c q +:+ t).
Qed.

Lemma hash_tail_filter keep t :
  keep "#"%char = true -> hash_tail t -> hash_tail (filter keep t).
Proof.
  intros Hk [->|(f & ->)]; [by left|]. right. cbn. rewrite Hk. by eexists.
Qed.

(** Cutting at [#] and then at [?] gives back the query. *)
Lemma split_once_tail s q t :
  plain s -> forallb query_char q = true -> hash_tail t ->
  snd (split_once "?" (fst (split_once "#" (s +:+ query_part q +:+ t)))) = q.
Proof.
  intros Hs Hq Ht.
  assert (Hsq : mem "#" (s +:+ query_part q) = false).
  { rewrite mem_app, (plain_mem "#" s) by done. unfold query_part.
    destruct (nonempty q); [|done]. cbn. apply mem_false_forallb.
    eapply forallb_impl; [|exact Hq]. apply query_char_not_hash. }
  assert (Hcut : fst (split_once "#" (s +:+ query_part q +:+ t))
                 = s +:+ query_part q).
  { unfold split_once. rewrite <- append_assoc.
    destruct Ht as [->|(f & ->)].
    - rewrite append_nil_r. by rewrite (proj2 (partition_none _ _) Hsq).
    - by rewrite partition_app. }
  rewrite Hcut. unfold split_once, query_part.
  destruct q as [|c q]; cbn [nonempty is_empty negb].
  - rewrite append_nil_r.
    by rewrite (proj2 (partition_none _ _) (plain_mem "?" s eq_refl Hs)).
  - change ("?" +:+ String c q) with (String "?" (String c q)).
    by rewrite partition_app by by apply plain_mem.
Qed.

Section WithHostChecks.
Context {hc : HostChecks}.

(** However [urlsplit] reads the part before the query, it finds the
    query that was written. *)
Lemma urlsplit_reads_query s q t sp :
  plain s -> forallb query_char q = true -> hash_tail t ->
  urlsplit (s +:+ query_part q +:+ t) = Ok sp ->
  s_query sp = q.
Proof.
  intros Hs Hq Ht. unfold urlsplit.
  rewrite lstrip_app_tail by by apply tail_parts.
  rewrite !filter_app.
  assert (Hqp : filter (fun c => negb (is_unsafe c)) (query_part q) = query_part q).
  { unfold query_part. destruct (nonempty q); [|done]. cbn.
    rewrite filter_id; [done|].
    eapply forallb_impl; [|exact Hq]. apply query_char_safe. }
  rewrite Hqp.
  set (s1 := filter _ (lstrip _ s)).
  assert (Hs1 : plain s1) by by apply plain_filter, plain_lstrip.
  set (t1 := filter _ t).
  assert (Ht1 : hash_tail t1) by by apply hash_tail_filter.
  clearbody s1 t1. clear Hs Ht Hqp s t.
  destruct (split_scheme_tail s1 (query_part q +:+ t1) Hs1 (tail_parts q t1 Ht1))
    as (s2 & Hs2 & Hplain2).
  destruct (split_scheme (s1 +:+ query_part q +:+ t1)) as [sch rest].
  cbn [snd] in Hs2. subst rest.
  assert (Hfinish : forall n s3, plain s3 ->
    (let (url0, fragment) := split_once "#" (s3 +:+ query_part q +:+ t1) in
     let (url1, query) := split_once "?" url0 in
     if checknetloc n then Ok (mkSplit sch n url1 query fragment)
     else Raise ValueError) = Ok sp ->
    s_query sp = q).
  { intros n s3 Hs3.
    pose proof (split_once_tail s3 q t1 Hs3 Hq Ht1) as Hcut.
    destruct (split_once "#" _) as [url0 fragment]. cbn [fst] in Hcut.
    destruct (split_once "?" url0) as [url1 query]. cbn [snd] in Hcut.
    destruct (checknetloc n); [|done]. by intros [= <-]. }
  destruct (startswith "//" (s2 +:+ query_part q +:+ t1)) eqn:Hss.
  - destruct (startswith_slashes_tail _ _ (tail_parts q t1 Ht1) Hss)
      as (s3 & ->).
    apply plain_app in Hplain2 as [_ Hplain3].
    unfold splitnetloc. cbn [drop String.append].
    rewrite break_app_tail by by apply tail_parts.
    destruct (check_brackets _); [|done].
    apply Hfinish. by apply plain_break.
  - by apply Hfinish.
Qed.

End WithHostChecks.

Lemma plain_of_mem s :
  mem "?" s = false -> mem "#" s = false -> plain s.
Proof.
  unfold plain. induction s as [|c s IH]; cbn [mem forallb]; [done|].
  destruct (Ascii.eqb_spec "?" c) as [<-|Hq]; [done|].
  destruct (Ascii.eqb_spec "#" c) as [<-|Hh]; [done|].
  intros H1 H2. rewrite (IH H1 H2), andb_true_r. unfold plain_char.
  destruct (Ascii.eqb_spec c "?") as [->|]; [done|].
  by destruct (Ascii.eqb_spec c "#") as [->|].
Qed.

Lemma split_once_fst_fresh c s : mem c (fst (split_once c s)) = false.
Proof.
  unfold split_once. destruct (partition c s) as [[l r]|] eqn:Hp.
  - by apply partition_some in Hp as [_ ?].
  - by apply partition_none.
Qed.

Lemma split_once_fst_mem c d s :
  mem d s = false -> mem d (fst (split_once c s)) = false.
Proof.
  unfold split_once. destruct (partition c s) as [[l r]|] eqn:Hp; [|done].
  apply partition_some in Hp as [-> _]. rewrite mem_app.
  by intros [? _]%orb_false_iff.
Qed.

Lemma plain_splitparams url :
  plain url -> plain (fst (splitparams url)) /\ plain (snd (splitparams url)).
Proof.
  intros Hu. unfold splitparams, split_once.
  destruct (mem "/" url).
  - destruct (rcut "/" url) as [[dir seg]|] eqn:Hr; [|done].
    apply rcut_spec in Hr as ->. apply plain_app in Hu as [Hd Hs].
    destruct (partition ";" seg) as [[l r]|] eqn:Hp.
    + destruct (plain_partition _ _ _ _ Hp Hs). cbn. split; [|done].
      by apply plain_app.
    + split; [|done]. by apply plain_app.
  - destruct (partition ";" url) as [[l r]|] eqn:Hp; [|done].
    by apply (plain_partition _ _ _ _ Hp).
Qed.

Section WithHostChecks.
Context {hc : HostChecks}.

Lemma urlsplit_path_plain url sp : urlsplit url = Ok sp -> plain (s_path sp).
Proof.
  unfold urlsplit.
  destruct (split_scheme _) as [sch rest].
  assert (Hfinish : forall n r,
    (let (url0, fragment) := split_once "#" r in
     let (url1, query) := split_once "?" url0 in
     if checknetloc n then Ok (mkSplit sch n url1 query fragment)
     else Raise ValueError) = Ok sp ->
    plain (s_path sp)).
  { intros n r.
    pose proof (split_once_fst_fresh "?" (fst (split_once "#" r))) as H1.
    pose proof (split_once_fst_mem "?" "#" _ (split_once_fst_fresh "#" r)) as H2.
    destruct (split_once "#" r) as [url0 fragment]. cbn [fst] in *.
    destruct (split_once "?" url0) as [url1 query]. cbn [fst] in *.
    destruct (checknetloc n); [|done]. intros [= <-]. by apply plain_of_mem. }
  destruct (startswith "//" rest); [|apply Hfinish].
  destruct (splitnetloc rest) as [n r].
  destruct (check_brackets n); [apply Hfinish|done].
Qed.

(** Before the query, a parsed url holds neither [?] nor [#]. *)
Lemma urlparse_plain url p :
  urlparse url = Ok p ->
  plain (scheme p) /\ plain (netloc p) /\ plain (path p) /\ plain (params p).
Proof.
  unfold urlparse. destruct (urlsplit url) as [sp|] eqn:Hsp; [|done].
  cbn [res_bind].
  destruct (urlsplit_scheme_netloc _ _ Hsp) as [Hs (Hn & _)].
  pose proof (urlsplit_path_plain _ _ Hsp) as Hp.
  pose proof (plain_splitparams _ Hp) as [Hp1 Hp2].
  assert (Hsch : plain (s_scheme sp)).
  { destruct Hs as [->|(c & cs & _ & _ & Hall & _)]; [done|].
    eapply forallb_impl; [|exact Hall]. apply scheme_char_plain. }
  assert (Hnet : plain (s_netloc sp)).
  { eapply forallb_impl; [|exact Hn]. apply not_delim_plain. }
  destruct (_ && _).
  - destruct (splitparams (s_path sp)). by intros [= <-].
  - by intros [= <-].
Qed.

End WithHostChecks.

(** A url put together by [urlunparse]: a plain part, the query, and the
    fragment. *)
Lemma urlunparse_shape p q :
  plain (scheme p) -> plain (netloc p) -> plain (path p) -> plain (params p) ->
  exists s t,
    urlunparse (replace_query p q) = s +:+ query_part q +:+ t
    /\ plain s /\ hash_tail t.
Proof.
  intros Hs Hn Hp Hpa. unfold urlunparse, urlunsplit, replace_query.
  cbn [scheme netloc path params query fragment].
  set (url := if nonempty (params p) then _ else _).
  assert (Hurl : plain url).
  { subst url. destruct (nonempty (params p)); [|done].
    apply plain_app. split; [done|]. by apply (plain_app ";" (params p)). }
  clearbody url.
  set (url0 := if _ || _ then _ else url).
  assert (Hurl0 : plain url0).
  { subst url0. destruct (_ || _); [|done].
    apply (plain_app "//"). split; [done|]. apply plain_app. split; [done|].
    destruct (_ && _); [|done]. by apply (plain_app "/"). }
  clearbody url0.
  set (url1 := if nonempty (scheme p) then _ else url0).
  assert (Hurl1 : plain url1).
  { subst url1. destruct (nonempty (scheme p)); [|done].
    apply plain_app. split; [done|]. by apply (plain_app ":"). }
  clearbody url1.
  exists url1, (if nonempty (fragment p) then "#" +:+ fragment p else "").
  split; [|split; [done|]].
  - unfold query_part.
    destruct (nonempty q), (nonempty (fragment p));
      by rewrite ?append_assoc, ?append_nil_r.
  - destruct (nonempty (fragment p)); [right; by eexists|by left].
Qed.

End ReparseFacts.

(** * Properties of the link checker *)

Section LinkChecker.
Context {hc : HostChecks}.

Implicit Types (w : world) (net : network) (link : string).

Lemma check_link_status_unfold depth net w link index test_websites :
  check_link_status (S depth) net w link index test_websites =
    if bool_decide (verified_links w !! link = Some "Working")
    then (w, Ok ("Working", 200%Z))
    else
      let r := net (length (request_log w)) link in
      let w := log_request w link r in
      match r with
      | Status status_code =>
          let w := count_status w status_code in
          if (status_code =? 200)%Z then
            (set_verified w link "Working", Ok ("Working", status_code))
          else if (status_code =? 406)%Z then
            (clear_cell (set_verified w link "Not Working") index,
             Ok ("Not Working", status_code))
          else if (status_code =? 404)%Z then
            match shorten_url link with
            | Ok shortened_link =>
                if bool_decide (shortened_link = link) || negb test_websites
                then (set_verified (clear_cell w index) link "Not Working",
                      Ok ("Not Working", status_code))
                else check_link_status depth net w shortened_link index
                                       test_websites
            | Raise e => (w, Raise e)
            end
          else if (status_code =? 429)%Z then
            (set_verified w link "Working", Ok ("Working", status_code))
          else if (status_code =? 403)%Z then
            if test_websites
            then (set_verified w link "Working", Ok ("Working", status_code))
            else (clear_cell (set_verified w link "Not Working") index,
                  Ok ("Not Working", status_code))
          else
            (clear_cell (set_verified w link "Not Working") index,
             Ok ("Not Working", status_code))
      | RequestException =>
          (set_verified (clear_cell (count_status w 0%Z) index) link
                        "Not Working",
           Ok ("Not Working", 0%Z))
      | Unexpected => (w, Raise OtherError)
      end.
Proof. reflexivity. Qed.

Lemma recursion_limit_S : recursion_limit = S 999.
Proof. reflexivity. Qed.

(** Case analysis along the branches of [check_link_status]. *)
Ltac branches :=
  repeat match goal with
         | |- context [bool_decide ?P] => destruct (bool_decide_reflect P)
         | |- context [(?a =? ?b)%Z] => destruct (Z.eqb_spec a b)
         | |- context [match ?r with Status _ => _ | _ => _ end] =>
             destruct r eqn:?
         | |- context [match shorten_url ?l with _ => _ end] =>
             destruct (shorten_url l) eqn:?
         | |- context [if ?b then _ else _] => destruct b eqn:?
         end; cbn [fst snd orb negb].

(** A check only adds requests at the end of the log. *)
Lemma check_log_extends depth net w link index test_websites :
  exists new,
    request_log (fst (check_link_status depth net w link index test_websites))
    = (request_log w ++ new)%list.
Proof.
  revert w link.
  induction depth as [|depth IH]; intros w link.
  - exists []. cbn. by rewrite app_nil_r.
  - rewrite check_link_status_unfold. cbv zeta.
    set (r := net (length (request_log w)) link).
    destruct (bool_decide_reflect (verified_links w !! link = Some "Working")).
    { exists []. cbn. by rewrite app_nil_r. }
    destruct r as [sc| |] eqn:Hr; try (exists [(link, r)]; subst r; by rewrite Hr).
    branches; try (eexists; cbn; rewrite <- Hr; reflexivity).
    all: match goal with
         | |- context [check_link_status _ _ ?w' ?l] =>
             destruct (IH w' l) as [new Hnew];
             exists ((link, Status sc) :: new); rewrite Hnew; cbn;
             by rewrite <- app_assoc
         end.
Qed.

(** ** The shortened url *)

Import StrFacts UrllibFacts.

Lemma urlparse_scheme_netloc url p :
  urlparse url = Ok p ->
  (scheme p = "" \/ is_scheme (scheme p)) /\ is_netloc (netloc p).
Proof.
  unfold urlparse. destruct (urlsplit url) as [sp|] eqn:Hsp; [|done].
  cbn [res_bind]. apply urlsplit_scheme_netloc in Hsp.
  match goal with |- context [let (_, _) := ?x in _] => destruct x end.
  by intros [= <-].
Qed.

Lemma urlparse_of_urlsplit url s n :
  urlsplit url = Ok (mkSplit s n "/" "" "") ->
  urlparse url = Ok (mkParse s n "/" "" "" "").
Proof.
  unfold urlparse. intros ->. cbn [res_bind s_path s_scheme].
  change (Str.mem ";" "/") with false. by rewrite andb_false_r.
Qed.

(** The base url of a link with a scheme is its own base url. *)
Lemma shorten_url_base s n :
  is_scheme s -> is_netloc n ->
  shorten_url (s +:+ "://" +:+ n +:+ "/") = Ok (s +:+ "://" +:+ n +:+ "/").
Proof.
  intros Hs Hn. unfold shorten_url.
  by rewrite (urlparse_of_urlsplit _ s n) by by apply urlsplit_base.
Qed.

(** The base url of any link that starts with a colon is [":///"]. *)
Lemma shorten_url_colon t : shorten_url (String ":" t) = Ok ":///".
Proof.
  unfold shorten_url, urlparse.
  destruct (urlsplit_colon t) as (p & q & f & ->). cbn [res_bind].
  match goal with |- context [let (_, _) := ?x in _] => by destruct x end.
Qed.

Lemma shorten_url_spec link shortened :
  shorten_url link = Ok shortened ->
  exists p, urlparse link = Ok p
            /\ shortened = scheme p +:+ "://" +:+ netloc p +:+ "/".
Proof.
  unfold shorten_url. destruct (urlparse link) as [p|]; [|done].
  intros [= <-]. by exists p.
Qed.


(** In any case shortening is stable after two steps. *)
Lemma shorten_url_stable link shortened :
  shorten_url link = Ok shortened ->
  exists shortened',
    shorten_url shortened = Ok shortened'
    /\ shorten_url shortened' = Ok shortened'.
Proof.
  intros (p & Hp & ->)%shorten_url_spec.
  destruct (urlparse_scheme_netloc _ _ Hp) as [[Hs|Hs] Hn].
  - rewrite Hs. exists ":///". split; apply shorten_url_colon.
  - exists (scheme p +:+ "://" +:+ netloc p +:+ "/").
    split; by apply shorten_url_base.
Qed.

(** ** Depth of the recursion *)

(** Both sides are unfolded once and compared branch by branch. *)
Ltac same_branches :=
  rewrite !check_link_status_unfold; cbv zeta;
  repeat match goal with
         | |- context [bool_decide ?P] => destruct (bool_decide_reflect P)
         | |- context [(?a =? ?b)%Z] => destruct (Z.eqb_spec a b)
         | |- context [match ?r with Status _ => _ | _ => _ end] =>
             destruct r eqn:?
         | |- context [match shorten_url ?l with _ => _ end] =>
             destruct (shorten_url l) eqn:?
         | |- context [if ?b then _ else _] => destruct b eqn:?
         end; cbn [fst snd orb negb]; try done.

(** A link that is its own base url is checked without recursion. *)
Lemma check_fixed_point depth net w link index test_websites :
  shorten_url link = Ok link ->
  check_link_status (S depth) net w link index test_websites
  = check_link_status 1 net w link index test_websites.
Proof.
  intros Hfix. same_branches; congruence.
Qed.

(** One extra level is enough when the base url is stable. *)
Lemma check_one_hop depth net w link index test_websites :
  (forall shortened, shorten_url link = Ok shortened ->
                     shorten_url shortened = Ok shortened) ->
  check_link_status (S (S depth)) net w link index test_websites
  = check_link_status 2 net w link index test_websites.
Proof.
  intros Hstable. same_branches.
  all: apply check_fixed_point; by apply Hstable.
Qed.

(** Two extra levels are enough for every link and every network: the
    interpreter's recursion limit is never reached. *)
Lemma check_depth_three depth net w link index test_websites :
  check_link_status (S (S (S depth))) net w link index test_websites
  = check_link_status 3 net w link index test_websites.
Proof.
  same_branches.
  all: match goal with
       | H : shorten_url _ = Ok ?s |- _ =>
           destruct (shorten_url_stable _ _ H) as (s' & Hs' & Hfix);
           apply check_one_hop; intros ? ?; congruence
       end.
Qed.

Lemma check_recursion_limit net w link index test_websites :
  check_link_status recursion_limit net w link index test_websites
  = check_link_status 3 net w link index test_websites.
Proof. apply (check_depth_three 997). Qed.

(** [shorten_url] raises nothing but the [ValueError] of [urlparse]. *)
Lemma urlsplit_raises url e : urlsplit url = Raise e -> e = ValueError.
Proof.
  unfold urlsplit.
  repeat match goal with
         | |- context [let (_, _) := ?x in _] => destruct x
         | |- context [if ?b then _ else _] => destruct b
         end; congruence.
Qed.

Lemma shorten_url_raises link e : shorten_url link = Raise e -> e = ValueError.
Proof.
  unfold shorten_url, urlparse.
  destruct (urlsplit link) as [sp|e0] eqn:Hsp; cbn [res_bind].
  - match goal with |- context [let (_, _) := ?x in _] => by destruct x end.
  - intros [= <-]. by apply urlsplit_raises in Hsp.
Qed.

Lemma check_fixed_point_returns net w link index test_websites :
  shorten_url link = Ok link ->
  snd (check_link_status 1 net w link index test_websites)
  <> Raise RecursionError.
Proof.
  intros Hfix. rewrite check_link_status_unfold. cbv zeta.
  branches; try done; congruence.
Qed.

Lemma check_one_hop_returns net w link index test_websites :
  (forall shortened, shorten_url link = Ok shortened ->
                     shorten_url shortened = Ok shortened) ->
  snd (check_link_status 2 net w link index test_websites)
  <> Raise RecursionError.
Proof.
  intros Hstable. rewrite check_link_status_unfold. cbv zeta.
  branches; try done.
  all: try (apply check_fixed_point_returns; by apply Hstable).
  all: match goal with
       | H : shorten_url _ = Raise ?e |- _ =>
           apply shorten_url_raises in H; by subst e
       end.
Qed.

(** The interpreter's recursion limit is never exhausted: with room for two
    extra levels, hence with [recursion_limit], the check never ends in
    [RecursionError]. *)
Lemma check_never_exhausts net w link index test_websites :
  snd (check_link_status recursion_limit net w link index test_websites)
  <> Raise RecursionError.
Proof.
  rewrite check_recursion_limit, check_link_status_unfold. cbv zeta.
  branches; try done.
  all: match goal with
       | H : shorten_url _ = Ok ?s |- _ =>
           destruct (shorten_url_stable _ _ H) as (s' & Hs' & Hfix);
           apply check_one_hop_returns; intros ? ?; congruence
       | H : shorten_url _ = Raise ?e |- _ =>
           apply shorten_url_raises in H; by subst e
       end.
Qed.

(** A check at depth [d] sends at most [d] requests. *)
Lemma check_request_bound depth net w link index test_websites :
  length (request_log
            (fst (check_link_status depth net w link index test_websites)))
  <= length (request_log w) + depth.
Proof.
  revert w link. induction depth as [|depth IH]; intros w link.
  - cbn. lia.
  - rewrite check_link_status_unfold. cbv zeta.
    branches; cbn [fst request_log set_verified clear_cell count_status log_request];
      rewrite ?length_app; cbn [length]; try lia.
    all: match goal with
         | |- context [check_link_status _ _ ?w' ?l] =>
             etrans; [apply (IH w' l)|];
             cbn [request_log count_status log_request];
             rewrite length_app; cbn [length]; lia
         end.
Qed.


(** ** The verification cache *)

(** C10. On a cache hit (the cache maps the url to "Working")
    [check_link_status] returns ("Working", 200) although no request is
    sent, and leaves the whole store as it was: histogram, data frame
    column, cache and request log.  [process_link] then appends the
    detailed result entry (link, "Working", 200) and changes nothing
    else, so the hit adds no histogram entry while its detailed entry
    records status code 200. *)
Theorem cache_hit_returns_200_and_frames depth net w link index test_websites :
  verified_links w !! link = Some "Working" ->
  check_link_status (S depth) net w link index test_websites
    = (w, Ok ("Working", 200%Z))
  /\ process_link net test_websites w index link
    = (append_result w (link, "Working", 200%Z), (link, "Working"))
  /\ status_codes (fst (process_link net test_websites w index link))
    = status_codes w
  /\ df (fst (process_link net test_websites w index link)) = df w
  /\ verified_links (fst (process_link net test_websites w index link))
    = verified_links w
  /\ request_log (fst (process_link net test_websites w index link))
    = request_log w.
Proof.
  intros Hhit.
  assert (Hcheck : forall d,
    check_link_status (S d) net w link index test_websites
    = (w, Ok ("Working", 200%Z))).
  { intros d. rewrite check_link_status_unfold.
    by rewrite bool_decide_eq_true_2. }
  split; [apply Hcheck|].
  unfold process_link. rewrite recursion_limit_S, Hcheck.
  by repeat split.
Qed.

(** C3. The cache short-circuits asymmetrically.  If the cache maps the
    url to "Working", the check returns Working and sends no request (the
    store, request log included, is unchanged).  If the cache maps it to
    "Not Working", the entry is not trusted: the check sends a fresh
    request to that url, the next entry of the request log. *)
Theorem cache_asymmetry depth net w link index test_websites :
  (verified_links w !! link = Some "Working" ->
     check_link_status (S depth) net w link index test_websites
     = (w, Ok ("Working", 200%Z)))
  /\ (verified_links w !! link = Some "Not Working" ->
     exists rest,
       request_log
         (fst (check_link_status (S depth) net w link index test_websites))
       = (request_log w
          ++ (link, net (length (request_log w)) link) :: rest)%list).
Proof.
  split; intros Hc.
  - rewrite check_link_status_unfold. by rewrite bool_decide_eq_true_2.
  - rewrite check_link_status_unfold.
    rewrite bool_decide_eq_false_2 by (rewrite Hc; discriminate).
    cbv zeta.
    set (r := net (length (request_log w)) link).
    destruct r as [sc| |] eqn:Hr; try (exists []; reflexivity).
    branches; try (exists []; reflexivity).
    all: match goal with
         | |- context [check_link_status ?d ?n ?w' ?l ?i ?t] =>
             destruct (check_log_extends d n w' l i t) as [new Hnew];
             exists new; rewrite Hnew; cbn; by rewrite <- app_assoc
         end.
Qed.

(** ** The status classifier *)


(** ** Unexpected errors *)

(** A check that ends in an exception has changed neither the data frame
    column nor the cache. *)
Lemma check_raise_frame depth net w link index test_websites e :
  snd (check_link_status depth net w link index test_websites) = Raise e ->
  df (fst (check_link_status depth net w link index test_websites)) = df w
  /\ verified_links (fst (check_link_status depth net w link index test_websites))
     = verified_links w.
Proof.
  revert w link.
  induction depth as [|depth IH]; intros w link; [done|].
  rewrite check_link_status_unfold. cbv zeta.
  set (r := net (length (request_log w)) link). clearbody r.
  destruct (bool_decide_reflect (verified_links w !! link = Some "Working"));
    [done|].
  destruct r as [sc| |]; [|done..].
  branches; try done.
  all: match goal with
       | |- context [check_link_status _ _ ?w' ?l] =>
           intros Hr; apply (IH w' l) in Hr; exact Hr
       end.
Qed.

(** C9. An unexpected error raised while a link is checked is caught by
    [process_link]: the task returns the outcome "Error" and records the
    detailed entry (link, "Error", 0); nothing is raised to the caller
    ([process_link] always returns).  On this path the data frame column,
    hence the cell of the link, is left as it was. *)
Theorem unexpected_error_is_caught net test_websites w index link e :
  snd (check_link_status recursion_limit net w link index test_websites)
    = Raise e ->
  snd (process_link net test_websites w index link) = (link, "Error")
  /\ detailed_results (fst (process_link net test_websites w index link))
     = (detailed_results w ++ [(link, "Error", 0%Z)])%list
  /\ df (fst (process_link net test_websites w index link)) = df w.
Proof.
  intros Hraise.
  pose proof (check_raise_frame _ _ _ _ _ _ _ Hraise) as [Hdf _].
  assert (Hres : detailed_results
            (fst (check_link_status recursion_limit net w link index
                    test_websites)) = detailed_results w).
  { clear. generalize recursion_limit. intros depth. revert w link.
    induction depth as [|depth IH]; intros w link; [done|].
    rewrite check_link_status_unfold. cbv zeta.
    set (r := net (length (request_log w)) link). clearbody r.
    branches; try done.
    all: match goal with
         | |- context [check_link_status _ _ ?w' ?l] => by rewrite (IH w' l)
         end. }
  unfold process_link.
  destruct (check_link_status recursion_limit net w link index test_websites)
    as [w' r].
  cbn [fst snd] in *. subst r. cbn. by rewrite Hres, Hdf.
Qed.

(** ** The status histogram *)








(** ** The dispatcher *)






End LinkChecker.

(** * Properties of the normalisation *)

Section Normalisation.
Context {hc : HostChecks}.

Import StrFacts UrllibFacts QueryFacts ReparseFacts.

(** ** The scheme upgrade *)

(** On a link that starts with the insecure scheme the whole link goes
    through [replace]: the prefix is rewritten, and so is every later
    occurrence. *)
Lemma update_link_to_https_http rest :
  update_link_to_https ("http://" +:+ rest)
  = ("https://" +:+ Str.replace "http://" "https://" rest, 1).
Proof. reflexivity. Qed.

Lemma update_link_to_https_relative rest :
  update_link_to_https ("//" +:+ rest) = ("https://" +:+ rest, 1).
Proof. reflexivity. Qed.

(** A link that needs no upgrade is left alone. *)
Lemma update_link_to_https_none link :
  Str.startswith "//" link = false ->
  Str.startswith "http://" link = false ->
  update_link_to_https link = (link, 0).
Proof. unfold update_link_to_https. by intros -> ->. Qed.

(** The scheme upgrade alone is idempotent. *)
Lemma update_link_to_https_idempotent link :
  fst (update_link_to_https (fst (update_link_to_https link)))
  = fst (update_link_to_https link).
Proof.
  destruct (Str.startswith "http://" link) eqn:Hh.
  - apply startswith_spec in Hh as [rest ->].
    by rewrite update_link_to_https_http.
  - destruct (Str.startswith "//" link) eqn:Hr.
    + apply startswith_spec in Hr as [rest ->].
      by rewrite update_link_to_https_relative.
    + rewrite (update_link_to_https_none link Hr Hh). cbn [fst].
      by rewrite (update_link_to_https_none link Hr Hh).
Qed.

(** C7. The scheme upgrade of a link that starts with "http://" does not
    stop at the leading scheme: [str.replace] rewrites every occurrence,
    so a later "http://" inside the query is turned into "https://" too. *)
Theorem upgrade_rewrites_later_occurrences :
  update_link_to_https "http://a.com/?u=http://b.com"
  = ("https://a.com/?u=https://b.com", 1).
Proof. reflexivity. Qed.

(** ** The removal of [igshid] *)

Lemma remove_igshid_link_spec link :
  remove_igshid_link link
  = match urlparse link with
    | Ok p =>
        if has_key "igshid" (parse_qs (query p))
        then Ok (Some (urlunparse
               (replace_query p
                  (urlencode (dict_del "igshid" (parse_qs (query p)))))))
        else Ok None
    | Raise e => Raise e
    end.
Proof. unfold remove_igshid_link. by destruct (urlparse link). Qed.

Lemma urlparse_query url p sp :
  urlsplit url = Ok sp -> urlparse url = Ok p -> query p = s_query sp.
Proof.
  unfold urlparse. intros ->. cbn [res_bind].
  match goal with |- context [let (_, _) := ?x in _] => destruct x end.
  by intros [= <-].
Qed.

(** A link from which [igshid] was removed holds no [igshid] any more:
    a second removal, if [urlparse] accepts the link, leaves it alone. *)
Lemma remove_igshid_link_twice link new_url r :
  remove_igshid_link link = Ok (Some new_url) ->
  remove_igshid_link new_url = Ok r ->
  r = None.
Proof.
  rewrite !remove_igshid_link_spec.
  destruct (urlparse link) as [p|] eqn:Hp; [|done].
  destruct (has_key "igshid" (parse_qs (query p))); [|done].
  intros [= <-].
  set (new_query := urlencode (dict_del "igshid" (parse_qs (query p)))).
  destruct (urlparse_plain _ _ Hp) as (Hs & Hn & Hpa & Hpr).
  destruct (urlunparse_shape p new_query Hs Hn Hpa Hpr)
    as (s & t & Hshape & Hplain & Htail).
  destruct (urlparse (urlunparse (replace_query p new_query))) as [p'|] eqn:Hp';
    [|done].
  assert (Hq : query p' = new_query).
  { unfold urlparse in Hp'.
    destruct (urlsplit (urlunparse (replace_query p new_query))) as [sp|] eqn:Hsp;
      [|done].
    rewrite (urlparse_query _ _ sp Hsp); [|by unfold urlparse; rewrite Hsp].
    rewrite Hshape in Hsp.
    apply (urlsplit_reads_query s new_query t sp); [done| |done..].
    apply urlencode_chars. }
  rewrite Hq. unfold new_query.
  rewrite has_key_parse_urlencode by apply has_key_del.
  by intros [= <-].
Qed.

(** C6 (amended). Normalisation is idempotent on every link whose
    normalised form needs no scheme upgrade, that is, does not start with
    "//" or "http://": a second pass over the normalised link, when it
    completes, returns it unchanged. *)
Theorem normalize_idempotent_without_upgrade link once twice :
  normalize link = Ok once ->
  Str.startswith "//" once = false ->
  Str.startswith "http://" once = false ->
  normalize once = Ok twice ->
  twice = once.
Proof.
  unfold normalize. intros H1 Hr Hh.
  rewrite (update_link_to_https_none once Hr Hh). cbn [fst].
  set (upgraded := fst (update_link_to_https link)) in H1.
  destruct (remove_igshid_link upgraded) as [[new_url|]|] eqn:Hrem;
    cbn [res_bind] in H1; [| |done]; injection H1 as <-.
  - destruct (remove_igshid_link new_url) as [r|] eqn:Hrem2; [|done].
    rewrite (remove_igshid_link_twice _ _ _ Hrem Hrem2). by intros [= <-].
  - rewrite Hrem. by intros [= <-].
Qed.


End Normalisation.

(** * The theorems at concrete links *)

Section Concrete.
#[local] Existing Instance accept_hosts.

(** Every request is answered with 404. *)
Definition always_404 : network := fun _ _ => Status 404%Z.


Definition always_unexpected : network := fun _ _ => Unexpected.

(** A store with one row and an empty cache. *)
Definition one_row (link : string) : world :=
  mkWorld ∅ ∅ [(0, Some link)] [] [].

(** A store with one row whose link is cached with [status]. *)
Definition cached_row (link status : string) : world :=
  mkWorld {[ link := status ]} ∅ [(0, Some link)] [] [].


(** The end-to-end scenario of the specification: three links, answered
    with 200, 200, 404 and 404 on the shortened form. *)
Example end_to_end :
  match
    main (fun n _ => nth n [Status 200%Z; Status 200%Z; Status 404%Z; Status 404%Z]
                         Unexpected)
         true
         [(0, Some "//a.com"); (1, Some "http://b.com/x?igshid=9");
          (2, Some "https://c.com/404page")]
         ∅ (fun tasks => tasks)
  with
  | Ok s =>
      df (final s)
      = [(0, Some "https://a.com"); (1, Some "https://b.com/x"); (2, Some "")]
      /\ status_codes (final s) !! 200%Z = Some 2
      /\ status_codes (final s) !! 404%Z = Some 2
      /\ histogram_total (status_codes (final s)) = 4
      /\ working_count s = 2 /\ not_working_count s = 1
  | Raise _ => False
  end.
Proof. vm_compute. by repeat split. Qed.

(** Without the refusal of [requests], a protocol-relative link that kept
    receiving 404 would take three requests: the bound of two rests on
    the scheme. *)
Remark protocol_relative_link_shortens_twice :
  shorten_url "//a.com/x" = Ok "://a.com/"
  /\ shorten_url "://a.com/" = Ok ":///"
  /\ shorten_url ":///" = Ok ":///"
  /\ request_log
       (fst (check_link_status recursion_limit always_404
               (one_row "//a.com/x") "//a.com/x" 0 true))
     = [("//a.com/x", Status 404%Z); ("://a.com/", Status 404%Z);
        (":///", Status 404%Z)].
Proof. vm_compute. by repeat split. Qed.

(** ** C1 *)



(** ** C2 *)


(** ** C3 *)

Lemma cache_asymmetry_witness :
  (check_link_status 1 always_404 (cached_row "https://a.com" "Working")
     "https://a.com" 0 true
   = (cached_row "https://a.com" "Working", Ok ("Working", 200%Z)))
  /\ exists rest,
       request_log
         (fst (check_link_status 1 always_404
                 (cached_row "https://a.com" "Not Working")
                 "https://a.com" 0 true))
       = ([] ++ ("https://a.com", Status 404%Z) :: rest)%list.
Proof.
  split.
  - apply (proj1 (cache_asymmetry 0 always_404
                    (cached_row "https://a.com" "Working")
                    "https://a.com" 0 true)).
    by vm_compute.
  - apply (proj2 (cache_asymmetry 0 always_404
                    (cached_row "https://a.com" "Not Working")
                    "https://a.com" 0 true)).
    by vm_compute.
Defined.

(** ** C4 *)


(** ** C5 *)


(** ** C6 *)

(** C6, counterexample. The upper-case scheme is not upgraded by the
    first pass, [urlparse] writes it in lower case, and the second pass
    upgrades it. *)
Lemma normalize_not_idempotent :
  normalize "HTTP://a.com/?igshid=1" = Ok "http://a.com/"
  /\ normalize "http://a.com/" = Ok "https://a.com/"
  /\ res_bind (normalize "HTTP://a.com/?igshid=1") normalize
     <> normalize "HTTP://a.com/?igshid=1".
Proof. vm_compute. by repeat split. Qed.

Lemma normalize_idempotent_without_upgrade_witness :
  normalize "http://ex.com/a?igshid=123&b=2" = Ok "https://ex.com/a?b=2"
  /\ Str.startswith "//" "https://ex.com/a?b=2" = false
  /\ Str.startswith "http://" "https://ex.com/a?b=2" = false
  /\ normalize "https://ex.com/a?b=2" = Ok "https://ex.com/a?b=2".
Proof.
  assert (H1 : normalize "http://ex.com/a?igshid=123&b=2"
               = Ok "https://ex.com/a?b=2") by by vm_compute.
  assert (H2 : Str.startswith "//" "https://ex.com/a?b=2" = false)
    by by vm_compute.
  assert (H3 : Str.startswith "http://" "https://ex.com/a?b=2" = false)
    by by vm_compute.
  split; [exact H1|]. split; [exact H2|]. split; [exact H3|].
  destruct (normalize "https://ex.com/a?b=2") as [twice|e] eqn:H4.
  - exact (f_equal Ok
             (normalize_idempotent_without_upgrade _ _ twice H1 H2 H3 H4)).
  - vm_compute in H4. discriminate H4.
Defined.

(** ** C8 *)



(** ** C9 *)

Lemma unexpected_error_is_caught_witness :
  snd (check_link_status recursion_limit always_unexpected
         (one_row "https://a.com") "https://a.com" 0 true)
  = Raise OtherError
  /\ snd (process_link always_unexpected true (one_row "https://a.com") 0
            "https://a.com")
     = ("https://a.com", "Error")
  /\ df (fst (process_link always_unexpected true (one_row "https://a.com") 0
                "https://a.com"))
     = [(0, Some "https://a.com")].
Proof.
  assert (H : snd (check_link_status recursion_limit always_unexpected
                     (one_row "https://a.com") "https://a.com" 0 true)
              = Raise OtherError) by by vm_compute.
  split; [exact H|].
  destruct (unexpected_error_is_caught _ _ _ _ _ _ H) as (Hout & _ & Hdf).
  split; [exact Hout|exact Hdf].
Defined.

(** ** C10 *)

Lemma cache_hit_returns_200_and_frames_witness :
  verified_links (cached_row "https://a.com" "Working") !! "https://a.com"
  = Some "Working"
  /\ check_link_status 1 always_404 (cached_row "https://a.com" "Working")
       "https://a.com" 0 true
     = (cached_row "https://a.com" "Working", Ok ("Working", 200%Z))
  /\ process_link always_404 true (cached_row "https://a.com" "Working") 0
       "https://a.com"
     = (append_result (cached_row "https://a.com" "Working")
          ("https://a.com", "Working", 200%Z),
        ("https://a.com", "Working")).
Proof.
  assert (H : verified_links (cached_row "https://a.com" "Working")
              !! "https://a.com" = Some "Working") by by vm_compute.
  split; [exact H|].
  destruct (cache_hit_returns_200_and_frames 0 always_404 _ _ 0 true H)
    as (Hcheck & Hproc & _).
  split; [exact Hcheck|exact Hproc].
Defined.

End Concrete.

(** * Further properties of the link checker *)



(** A completed future whose task returned "Working". *)
Definition is_working (future : res (string * string)) : bool :=
  match future with
  | Ok (_, status) => String.eqb status "Working"
  | Raise _ => false
  end.

Section CheckerMore.
Context {hc : HostChecks}.

Implicit Types (w : world) (net : network) (link : string).

Ltac cases :=
  repeat match goal with
         | |- context [bool_decide ?P] => destruct (bool_decide_reflect P)
         | |- context [(?a =? ?b)%Z] => destruct (Z.eqb_spec a b)
         | |- context [match ?r with Status _ => _ | _ => _ end] =>
             destruct r eqn:?
         | |- context [match shorten_url ?l with _ => _ end] =>
             destruct (shorten_url l) eqn:?
         | |- context [if ?b then _ else _] => destruct b eqn:?
         end; cbn [fst snd orb negb].

(** X1. Whatever the network answers, one check sends at most three
    requests and never runs into the interpreter's recursion limit. *)
Theorem check_sends_at_most_three_requests net w link index test_websites :
  length (request_log
            (fst (check_link_status recursion_limit net w link index
                    test_websites)))
  <= length (request_log w) + 3
  /\ snd (check_link_status recursion_limit net w link index test_websites)
     <> Raise RecursionError.
Proof.
  split; [|apply check_never_exhausts].
  rewrite check_recursion_limit. apply check_request_bound.
Qed.


(** X3. With retry mode off a check never calls itself: it behaves as
    with no room for an extra level and sends at most one request. *)
Theorem retry_off_sends_one_request depth net w link index :
  check_link_status (S depth) net w link index false
  = check_link_status 1 net w link index false
  /\ length (request_log
               (fst (check_link_status (S depth) net w link index false)))
     <= length (request_log w) + 1.
Proof.
  assert (H : check_link_status (S depth) net w link index false
              = check_link_status 1 net w link index false).
  { rewrite !check_link_status_unfold. cbv zeta.
    destruct (bool_decide _); [done|].
    destruct (net _ link) as [sc| |]; [|done..].
    repeat match goal with
           | |- context [(?a =? ?b)%Z] => destruct (Z.eqb_spec a b)
           end; try done.
    destruct (shorten_url link); [|done]. by rewrite orb_true_r. }
  split; [done|]. rewrite H. apply check_request_bound.
Qed.

(** X4. The outcome a check returns fits its status code: "Working" comes
    only with 200, 429, or 403 in retry mode; every other return is "Not
    Working", never with 200 or 429, and with 403 only when retry mode is
    off. *)
Theorem outcome_fits_status_code depth net w link index test_websites
    status status_code :
  snd (check_link_status depth net w link index test_websites)
    = Ok (status, status_code) ->
  (status = "Working"
   /\ (status_code = 200%Z \/ status_code = 429%Z
       \/ (status_code = 403%Z /\ test_websites = true)))
  \/ (status = "Not Working"
      /\ status_code <> 200%Z /\ status_code <> 429%Z
      /\ (status_code = 403%Z -> test_websites = false)).
Proof.
  revert w link. induction depth as [|depth IH]; intros w link; [done|].
  rewrite check_link_status_unfold. cbv zeta.
  cases; try done; try (by apply IH); intros [= <- <-]; subst;
    first [ left; split; [done|]; by auto
          | right; repeat split; (done || lia || (intros; congruence)) ].
Qed.





Lemma check_detailed_results depth net w link index test_websites :
  detailed_results
    (fst (check_link_status depth net w link index test_websites))
  = detailed_results w.
Proof.
  revert w link. induction depth as [|depth IH]; intros w link; [done|].
  rewrite check_link_status_unfold. cbv zeta.
  cases; try done. all: by rewrite (IH _ _).
Qed.

(** X8. A run appends one detailed result per task, in the order in which
    the tasks complete: the entry carries the link of the task and the
    status its future holds. *)
Theorem detailed_results_follow_completion net test_websites w tasks :
  exists new,
    detailed_results (fst (run_tasks net test_websites w tasks))
    = (detailed_results w ++ new)%list
    /\ List.map (fun e => Ok (fst (fst e), snd (fst e))) new
       = snd (run_tasks net test_websites w tasks)
    /\ List.map (fun e => fst (fst e)) new = List.map snd tasks.
Proof.
  revert w. induction tasks as [|[index link] tasks IH]; intros w.
  { exists []. by rewrite app_nil_r. }
  cbn [run_tasks]. unfold process_link.
  pose proof (check_detailed_results recursion_limit net w link index
                test_websites) as Hd.
  destruct (check_link_status _ _ w _ _ _) as [w1 r]. cbn [fst] in Hd.
  destruct (match r with Ok _ => _ | Raise _ => _ end) as [status code].
  destruct (IH (append_result w1 (link, status, code))) as (new & H1 & H2 & H3).
  destruct (run_tasks _ _ _ tasks) as [w2 outs]. cbn [fst snd] in *.
  exists ((link, status, code) :: new).
  rewrite H1. cbn [detailed_results append_result List.map fst snd].
  rewrite Hd, <- app_assoc. by rewrite H2, H3.
Qed.

End CheckerMore.

(** * Further properties of the run *)

Section RunMore.
Context {hc : HostChecks}.

Implicit Types (w : world) (net : network) (link : string).

Ltac cases :=
  repeat match goal with
         | |- context [bool_decide ?P] => destruct (bool_decide_reflect P)
         | |- context [(?a =? ?b)%Z] => destruct (Z.eqb_spec a b)
         | |- context [match ?r with Status _ => _ | _ => _ end] =>
             destruct r eqn:?
         | |- context [match shorten_url ?l with _ => _ end] =>
             destruct (shorten_url l) eqn:?
         | |- context [if ?b then _ else _] => destruct b eqn:?
         end; cbn [fst snd orb negb].






(** X10. [working_count] is the number of completed futures whose task
    returned "Working"; every other future, an "Error" or a raising one
    included, is counted by [not_working_count]. *)
Theorem tally_counts_working futures :
  fst (tally futures) = length (List.filter is_working futures)
  /\ snd (tally futures)
     = length (List.filter (fun f => negb (is_working f)) futures).
Proof.
  unfold tally.
  assert (H : forall counts,
    fst (fold_left tally_one futures counts)
    = fst counts + length (List.filter is_working futures)
    /\ snd (fold_left tally_one futures counts)
       = snd counts
         + length (List.filter (fun f => negb (is_working f)) futures)).
  { assert (Hone : forall a b f,
      tally_one (a, b) f = if is_working f then (S a, b) else (a, S b)).
    { by intros a b [[l status]|e]. }
    induction futures as [|f fs IH]; intros [a b]; cbn [fold_left List.filter].
    - cbn. lia.
    - destruct (IH (tally_one (a, b) f)) as [IH1 IH2]. rewrite IH1, IH2, Hone.
      destruct (is_working f); cbn; lia. }
  destruct (H (0, 0)) as [H1 H2]. by rewrite H1, H2.
Qed.





End RunMore.

(** * Further properties of the normalisation passes *)

(** One row after the scheme upgrade. *)
Definition upgrade_row (r : nat * option string) : nat * option string :=
  (fst r, option_map (fun link => fst (update_link_to_https link)) (snd r)).

(** The number of cells the scheme upgrade rewrites. *)
Fixpoint upgrades (column : frame) : nat :=
  match column with
  | [] => 0
  | (_, Some link) :: column' => snd (update_link_to_https link) + upgrades column'
  | (_, None) :: column' => upgrades column'
  end.

Section PassesMore.
Context {hc : HostChecks}.

(** The removal of igshid row by row: the new rows and the number of
    rewritten cells, or the first [ValueError]. *)
Fixpoint remove_rows (column : frame) : res (frame * nat) :=
  match column with
  | [] => Ok ([], 0)
  | (index, None) :: column' =>
      res_bind (remove_rows column') (fun '(rows, n) =>
        Ok ((index, None) :: rows, n))
  | (index, Some link) :: column' =>
      res_bind (remove_igshid_link link) (fun r =>
        res_bind (remove_rows column') (fun '(rows, n) =>
          match r with
          | Some new_url => Ok ((index, Some new_url) :: rows, S n)
          | None => Ok ((index, Some link) :: rows, n)
          end))
  end.

Import StrFacts.

(** X12. The upgraded link needs no second upgrade: it starts neither
    with "//" nor with "http://".  The counter moves by at most one, and it
    stays put exactly when the cell is left as it was. *)
Theorem upgraded_link_has_secure_prefix link :
  Str.startswith "//" (fst (update_link_to_https link)) = false
  /\ Str.startswith "http://" (fst (update_link_to_https link)) = false
  /\ snd (update_link_to_https link) <= 1
  /\ (snd (update_link_to_https link) = 0
      <-> fst (update_link_to_https link) = link).
Proof.
  destruct (Str.startswith "http://" link) eqn:Hh.
  - apply startswith_spec in Hh as [rest ->].
    rewrite update_link_to_https_http. cbn [fst snd].
    repeat split; (done || lia).
  - destruct (Str.startswith "//" link) eqn:Hr.
    + apply startswith_spec in Hr as [rest ->].
      rewrite update_link_to_https_relative. cbn [fst snd].
      repeat split; (done || lia).
    + rewrite (update_link_to_https_none link Hr Hh). cbn [fst snd].
      repeat split; (done || lia).
Qed.

(** Setting the cell of a label that occurs once. *)
Lemma df_set_at (before after : frame) index cell v :
  ~ In index (List.map fst before) ->
  ~ In index (List.map fst after) ->
  df_set (before ++ (index, cell) :: after) index v
  = (before ++ (index, v) :: after)%list.
Proof.
  intros Hb Ha. unfold df_set.
  assert (Hex : existsb (fun r => Nat.eqb (fst r) index)
                  (before ++ (index, cell) :: after) = true).
  { rewrite existsb_app. cbn. rewrite Nat.eqb_refl. by rewrite orb_true_r. }
  rewrite Hex, List.map_app. cbn [List.map fst]. rewrite Nat.eqb_refl.
  assert (Hid : forall rows : frame, ~ In index (List.map fst rows) ->
    List.map (fun r => if Nat.eqb (fst r) index then (fst r, v) else r) rows
    = rows).
  { induction rows as [|[i c] rows IH]; [done|]. cbn. intros Hn.
    destruct (Nat.eqb_spec i index) as [->|]; [tauto|].
    rewrite IH; [done|tauto]. }
  by rewrite !Hid.
Qed.

Lemma upgrade_unchanged link :
  snd (update_link_to_https link) = 0 -> fst (update_link_to_https link) = link.
Proof.
  unfold update_link_to_https.
  by destruct (Str.startswith "//" link), (Str.startswith "http://" link).
Qed.

Lemma upgrade_row_label r : fst (upgrade_row r) = fst r.
Proof. reflexivity. Qed.

(** The loop of [update_links_to_https] from a row on: the rows before are
    done, their labels differ from those to come. *)
Lemma update_links_from (todo before : frame) (n : nat) :
  NoDup (List.map fst todo) ->
  (forall j, In j (List.map fst before) -> ~ In j (List.map fst todo)) ->
  fold_left
    (fun '(acc, counter) '(index, cell) =>
       match cell with
       | Some link =>
           let '(updated_link, n) := update_link_to_https link in
           if Nat.eqb n 0 then (acc, counter)
           else (df_set acc index (Some updated_link), counter + n)
       | None => (acc, counter)
       end)
    todo (before ++ todo, n)%list
  = ((before ++ List.map upgrade_row todo)%list, n + upgrades todo).
Proof.
  revert before n. induction todo as [|[i c] todo IH]; intros before n Hnd Hdis.
  { cbn. by rewrite Nat.add_0_r. }
  cbn [List.map fst] in Hnd. apply NoDup_cons in Hnd as [Hi Hnd].
  assert (Hi' : ~ In i (List.map fst todo)) by by rewrite <- list_elem_of_In.
  assert (Hb : ~ In i (List.map fst before)).
  { intros Hin. apply (Hdis i Hin). by left. }
  assert (Hnext : forall cell j,
    In j (List.map fst (before ++ [(i, cell)])) -> ~ In j (List.map fst todo)).
  { intros cell j. rewrite List.map_app, in_app_iff. cbn.
    intros [Hj|[<-|[]]]; [|done]. intros Hin. apply (Hdis j Hj). by right. }
  cbn [fold_left].
  destruct c as [link|].
  - pose proof (upgrade_unchanged link) as Hsame.
    change (List.map upgrade_row ((i, Some link) :: todo))
      with ((i, Some (fst (update_link_to_https link)))
            :: List.map upgrade_row todo).
    change (upgrades ((i, Some link) :: todo))
      with (snd (update_link_to_https link) + upgrades todo).
    destruct (update_link_to_https link) as [updated k]. cbn [fst snd] in *.
    destruct (Nat.eqb_spec k 0) as [->|Hk].
    + rewrite (Hsame eq_refl).
      rewrite (cons_middle (i, Some link) before todo), app_assoc.
      rewrite (IH _ _ Hnd (Hnext _)).
      by rewrite <- app_assoc.
    + rewrite df_set_at by done.
      rewrite (cons_middle (i, Some updated) before todo), app_assoc.
      rewrite (IH _ _ Hnd (Hnext _)).
      rewrite <- app_assoc. by rewrite Nat.add_assoc.
  - change (List.map upgrade_row ((i, None) :: todo))
      with ((i, None) :: List.map upgrade_row todo).
    change (upgrades ((i, None) :: todo)) with (upgrades todo).
    rewrite (cons_middle (i, None) before todo), app_assoc.
    rewrite (IH _ _ Hnd (Hnext _)).
    by rewrite <- app_assoc.
Qed.

(** X13. On a column whose row labels are pairwise distinct,
    [update_links_to_https] upgrades every text cell on its own, keeps the
    rows, their labels and the missing cells, and returns the number of
    cells it rewrote. *)
Theorem update_links_to_https_row_by_row column :
  NoDup (List.map fst column) ->
  update_links_to_https column
  = (List.map upgrade_row column, upgrades column).
Proof.
  intros Hnd. unfold update_links_to_https.
  by apply (update_links_from column [] 0 Hnd).
Qed.

(** The step of the loop of [remove_igshid_parameter]. *)
Definition remove_step (st : res (frame * nat)) (row : nat * option string)
    : res (frame * nat) :=
  let '(index, cell) := row in
  res_bind st (fun '(acc, counter) =>
    match cell with
    | Some link =>
        res_bind (remove_igshid_link link) (fun r =>
          match r with
          | Some new_url => Ok (df_set acc index (Some new_url), S counter)
          | None => Ok (acc, counter)
          end)
    | None => Ok (acc, counter)
    end).

Lemma remove_igshid_parameter_fold column :
  remove_igshid_parameter column = fold_left remove_step column (Ok (column, 0)).
Proof. reflexivity. Qed.

Lemma remove_step_raise todo e : fold_left remove_step todo (Raise e) = Raise e.
Proof. induction todo as [|[i c] todo IH]; [done|]. exact IH. Qed.

Lemma remove_from (todo before : frame) (n : nat) :
  NoDup (List.map fst todo) ->
  (forall j, In j (List.map fst before) -> ~ In j (List.map fst todo)) ->
  fold_left remove_step todo (Ok ((before ++ todo)%list, n))
  = res_bind (remove_rows todo) (fun '(rows, k) =>
      Ok ((before ++ rows)%list, n + k)).
Proof.
  revert before n. induction todo as [|[i c] todo IH]; intros before n Hnd Hdis.
  { cbn. by rewrite Nat.add_0_r. }
  cbn [List.map fst] in Hnd. apply NoDup_cons in Hnd as [Hi Hnd].
  assert (Hi' : ~ In i (List.map fst todo)) by by rewrite <- list_elem_of_In.
  assert (Hb : ~ In i (List.map fst before)).
  { intros Hin. apply (Hdis i Hin). by left. }
  assert (Hnext : forall cell j,
    In j (List.map fst (before ++ [(i, cell)])) -> ~ In j (List.map fst todo)).
  { intros cell j. rewrite List.map_app, in_app_iff. cbn.
    intros [Hj|[<-|[]]]; [|done]. intros Hin. apply (Hdis j Hj). by right. }
  cbn [fold_left remove_rows]. unfold remove_step at 2. cbn [res_bind].
  destruct c as [link|].
  - destruct (remove_igshid_link link) as [[new_url|]|e]; cbn [res_bind].
    + rewrite df_set_at by done.
      rewrite (cons_middle (i, Some new_url) before todo), app_assoc.
      rewrite (IH _ _ Hnd (Hnext _)).
      destruct (remove_rows todo) as [[rows k]|e]; cbn [res_bind]; [|done].
      rewrite <- app_assoc. cbn. do 2 f_equal. lia.
    + rewrite (cons_middle (i, Some link) before todo), app_assoc.
      rewrite (IH _ _ Hnd (Hnext _)).
      destruct (remove_rows todo) as [[rows k]|e]; cbn [res_bind]; [|done].
      by rewrite <- app_assoc.
    + apply remove_step_raise.
  - rewrite (cons_middle (i, None) before todo), app_assoc.
    rewrite (IH _ _ Hnd (Hnext _)).
    destruct (remove_rows todo) as [[rows k]|e]; cbn [res_bind]; [|done].
    by rewrite <- app_assoc.
Qed.

(** X14. On a column whose row labels are pairwise distinct,
    [remove_igshid_parameter] treats the rows one by one from the top: it
    returns the rows with every rewritten cell replaced and the number of
    rewritten cells, or raises the [ValueError] of the first text cell
    that [urlparse] rejects. *)
Theorem remove_igshid_parameter_row_by_row column :
  NoDup (List.map fst column) ->
  remove_igshid_parameter column = remove_rows column.
Proof.
  intros Hnd. rewrite remove_igshid_parameter_fold.
  etrans; [by apply (remove_from column [] 0 Hnd)|].
  by destruct (remove_rows column) as [[rows k]|e].
Qed.





Lemma remove_igshid_link_raises link e :
  remove_igshid_link link = Raise e -> e = ValueError.
Proof.
  rewrite remove_igshid_link_spec.
  destruct (urlparse link) as [p|e0] eqn:Hp.
  - by destruct (has_key _ _).
  - intros [= <-]. unfold urlparse in Hp.
    destruct (urlsplit link) as [sp|e1] eqn:Hsp; cbn [res_bind] in Hp.
    + revert Hp.
      match goal with |- context [let (_, _) := ?x in _] => by destruct x end.
    + injection Hp as <-. by apply urlsplit_raises in Hsp.
Qed.



(** X17. The removal of igshid is idempotent: a link it has rewritten
    holds no igshid parameter any more, so a second removal leaves the
    link alone, unless [urlparse] rejects the rewritten link. *)
Theorem igshid_removal_is_idempotent link new_url :
  remove_igshid_link link = Ok (Some new_url) ->
  remove_igshid_link new_url = Ok None
  \/ remove_igshid_link new_url = Raise ValueError.
Proof.
  intros Hrem. destruct (remove_igshid_link new_url) as [r|e] eqn:Hrem2.
  - left. by rewrite (remove_igshid_link_twice _ _ _ Hrem Hrem2).
  - right. by rewrite (remove_igshid_link_raises _ _ Hrem2).
Qed.

End PassesMore.

(** * Further properties of loading and saving *)

Section FilesMore.
Context {DataFrame Disk : Type}.
Variables read_excel read_csv : string -> res DataFrame.
Variables to_excel to_csv : DataFrame -> string -> Disk -> res Disk.

Import StrFacts.

Lemma length_append s t :
  String.length (s +:+ t) = String.length s + String.length t.
Proof. induction s as [|c s IH]; cbn; [done|]. by rewrite IH. Qed.

Lemma drop_append s t : Str.drop (String.length s) (s +:+ t) = t.
Proof. induction s as [|c s IH]; cbn; [by destruct t|done]. Qed.

Lemma drop_suffix n s : exists stem, s = stem +:+ Str.drop n s.
Proof.
  revert s. induction n as [|n IH]; intros s; [by exists ""|].
  destruct s as [|c s]; [by exists ""|].
  destruct (IH s) as [stem Hs]. exists (String c stem). cbn. by rewrite <- Hs.
Qed.

(** [endswith] holds of the strings that are a stem followed by the
    suffix, and of no other. *)
Lemma endswith_spec suffix s :
  Str.endswith suffix s = true <-> exists stem, s = stem +:+ suffix.
Proof.
  unfold Str.endswith. split.
  - intros [_ Heq%String.eqb_eq]%andb_true_iff.
    destruct (drop_suffix (String.length s - String.length suffix) s) as [stem Hs].
    exists stem. by rewrite <- Heq.
  - intros [stem ->]. rewrite length_append. apply andb_true_iff. split.
    + apply Nat.leb_le. lia.
    + replace (String.length stem + String.length suffix - String.length suffix)
        with (String.length stem) by lia.
      rewrite drop_append. apply String.eqb_refl.
Qed.

Lemma append_last_inj s t a b :
  s +:+ String a "" = t +:+ String b "" -> a = b.
Proof.
  revert t. induction s as [|c s IH]; intros [|d t]; cbn.
  - by intros [= ->].
  - intros [= _ H]. by destruct t.
  - intros [= _ H]. by destruct s.
  - intros [= _ H]. by apply (IH t).
Qed.

Lemma csv_is_not_xlsx stem : Str.endswith ".xlsx" (stem +:+ ".csv") = false.
Proof.
  destruct (Str.endswith ".xlsx" (stem +:+ ".csv")) eqn:H; [|done].
  apply endswith_spec in H as [stem' H].
  change ".csv" with (".cs" +:+ "v") in H.
  change ".xlsx" with (".xls" +:+ "x") in H.
  rewrite <- !append_assoc in H. by apply append_last_inj in H.
Qed.

(** X18. [load_dataframe] and [save_dataframe] choose the format by the
    end of the path, in the same way: a path that ends in ".xlsx" goes to
    the Excel reader and writer, a path that ends in ".csv" to the CSV
    reader and writer, and any other path makes both raise [ValueError]
    without reading or writing. *)
Theorem load_and_save_choose_by_suffix df disk :
  (forall stem,
     load_dataframe read_excel read_csv (stem +:+ ".xlsx")
     = read_excel (stem +:+ ".xlsx")
     /\ save_dataframe to_excel to_csv df (stem +:+ ".xlsx") disk
        = to_excel df (stem +:+ ".xlsx") disk)
  /\ (forall stem,
        load_dataframe read_excel read_csv (stem +:+ ".csv")
        = read_csv (stem +:+ ".csv")
        /\ save_dataframe to_excel to_csv df (stem +:+ ".csv") disk
           = to_csv df (stem +:+ ".csv") disk)
  /\ (forall file_path,
        (forall stem, file_path <> stem +:+ ".xlsx") ->
        (forall stem, file_path <> stem +:+ ".csv") ->
        load_dataframe read_excel read_csv file_path = Raise ValueError
        /\ save_dataframe to_excel to_csv df file_path disk = Raise ValueError).
Proof.
  unfold load_dataframe, save_dataframe. split; [|split].
  - intros stem.
    by rewrite (proj2 (endswith_spec ".xlsx" _) (ex_intro _ stem eq_refl)).
  - intros stem. rewrite csv_is_not_xlsx.
    by rewrite (proj2 (endswith_spec ".csv" _) (ex_intro _ stem eq_refl)).
  - intros file_path Hx Hc.
    destruct (Str.endswith ".xlsx" file_path) eqn:H1.
    { apply endswith_spec in H1 as [stem ->]. by destruct (Hx stem). }
    destruct (Str.endswith ".csv" file_path) eqn:H2; [|done].
    apply endswith_spec in H2 as [stem ->]. by destruct (Hc stem).
Qed.

End FilesMore.

(** * The further properties on concrete links *)

Section ConcreteMore.
#[local] Existing Instance accept_hosts.


Lemma outcome_fits_status_code_witness :
  snd (check_link_status recursion_limit always_404
         (one_row "https://c.com/404page") "https://c.com/404page" 0 true)
  = Ok ("Not Working", 404%Z)
  /\ (404 <> 200 /\ 404 <> 429 /\ (404 = 403 -> true = false))%Z.
Proof.
  assert (H : snd (check_link_status recursion_limit always_404
                     (one_row "https://c.com/404page")
                     "https://c.com/404page" 0 true)
              = Ok ("Not Working", 404%Z)) by by vm_compute.
  split; [exact H|].
  destruct (outcome_fits_status_code _ _ _ _ _ _ _ _ H) as [[Hw _]|[_ Hn]].
  - discriminate Hw.
  - exact Hn.
Defined.



(** Three rows with distinct labels: a link to upgrade, a missing cell, a
    link with igshid. *)
Definition three_rows : frame :=
  [(0, Some "http://a.com"); (1, None); (2, Some "//b.com/x?igshid=9&k=v")].

Lemma three_rows_labels : NoDup (List.map fst three_rows).
Proof. by apply (bool_decide_unpack _). Qed.

Lemma update_links_to_https_row_by_row_witness :
  NoDup (List.map fst three_rows)
  /\ update_links_to_https three_rows
     = (List.map upgrade_row three_rows, upgrades three_rows).
Proof.
  split; [exact three_rows_labels|].
  exact (update_links_to_https_row_by_row three_rows three_rows_labels).
Defined.

Lemma remove_igshid_parameter_row_by_row_witness :
  NoDup (List.map fst three_rows)
  /\ remove_igshid_parameter three_rows = remove_rows three_rows.
Proof.
  split; [exact three_rows_labels|].
  exact (remove_igshid_parameter_row_by_row three_rows three_rows_labels).
Defined.



Lemma igshid_removal_is_idempotent_witness :
  remove_igshid_link "https://e.com/?a=1&igshid=x&b=2"
  = Ok (Some "https://e.com/?a=1&b=2")
  /\ (remove_igshid_link "https://e.com/?a=1&b=2" = Ok None
      \/ remove_igshid_link "https://e.com/?a=1&b=2" = Raise ValueError).
Proof.
  assert (H : remove_igshid_link "https://e.com/?a=1&igshid=x&b=2"
              = Ok (Some "https://e.com/?a=1&b=2")) by by vm_compute.
  split; [exact H|]. exact (igshid_removal_is_idempotent _ _ H).
Defined.

Lemma not_a_suffix suffix file_path :
  Str.endswith suffix file_path = false ->
  forall stem, file_path <> stem +:+ suffix.
Proof.
  intros Hno stem Heq.
  assert (Hyes : Str.endswith suffix file_path = true)
    by (apply endswith_spec; by exists stem).
  congruence.
Qed.

Lemma load_and_save_choose_by_suffix_witness :
  (forall stem, "links.txt" <> stem +:+ ".xlsx")
  /\ (forall stem, "links.txt" <> stem +:+ ".csv")
  /\ load_dataframe (fun _ => Ok three_rows) (fun _ => Ok three_rows) "links.txt"
     = Raise ValueError
  /\ save_dataframe (fun df path disk => Ok ((path, df) :: disk))
       (fun df path disk => Ok ((path, df) :: disk)) three_rows "links.txt" []
     = Raise ValueError.
Proof.
  assert (Hx : forall stem, "links.txt" <> stem +:+ ".xlsx")
    by (apply not_a_suffix; by vm_compute).
  assert (Hc : forall stem, "links.txt" <> stem +:+ ".csv")
    by (apply not_a_suffix; by vm_compute).
  split; [exact Hx|]. split; [exact Hc|].
  exact (proj2 (proj2 (load_and_save_choose_by_suffix
                         (fun _ => Ok three_rows) (fun _ => Ok three_rows)
                         (fun df path disk => Ok ((path, df) :: disk))
                         (fun df path disk => Ok ((path, df) :: disk))
                         three_rows [])) "links.txt" Hx Hc).
Defined.

End ConcreteMore.
